(** * stylelint: the standalone entry point ([lib/standalone.js])

    A shallow embedding of [module.exports], [prepareReturnValue],
    [handleError] and [convertCssSyntaxErrorToResult], together with the
    parts of the JavaScript platform they rely on: truthiness, [typeof],
    [String.prototype.split] on [/\r?\n/], settled promises with [then] and
    [catch], and [Promise.all] under an arbitrary completion order.

    Every run returns the list of effects it performed (the ignore file
    read, the engine creation, the glob expansion, the lint operations it
    started) next to its outcome, so that statements of the form "fails
    before any lint work" are statements about that list. *)

From Stdlib Require Import String Ascii List ZArith Bool Lia Permutation.
From stdpp Require Import base list strings.
Import ListNotations.

Local Open Scope string_scope.
Local Open Scope list_scope.

(** ** JavaScript values *)

(** The values an option of unknown type can hold.  Numbers are kept to the
    integer-valued ones, objects are opaque. *)
Inductive jsval : Type :=
  | JUndefined
  | JNull
  | JBool (b : bool)
  | JNum (n : Z)
  | JStr (s : string)
  | JObj.

(** [ToBoolean]: what [!v], [v || w] and [if (v)] look at. *)
Definition truthy (v : jsval) : bool :=
  match v with
  | JUndefined | JNull => false
  | JBool b => b
  | JNum n => negb (n =? 0)%Z
  | JStr s => negb (s =? "")
  | JObj => true
  end.

(** [typeof v === "string"] *)
Definition typeof_string (v : jsval) : bool :=
  match v with JStr _ => true | _ => false end.

(** [v || d] for an optional string property [v] ([None] is [undefined]) and
    a string [d]: the empty string is falsy too. *)
Definition or_default (v : option string) (d : string) : string :=
  match v with
  | Some s => if s =? "" then d else s
  | None => d
  end.

(** ** Errors *)

(** A thrown object, with the properties this file reads: [name], [message],
    [code] (set by [fs]), and the position properties of a PostCSS
    [CssSyntaxError]. *)
Record js_error : Type := mkError {
  err_name : string;
  err_message : string;
  err_code : option string;
  err_reason : string;
  err_file : option string;
  err_line : jsval;
  err_column : jsval
}.

(** [new Error(message)] *)
Definition new_Error (message : string) : js_error :=
  {| err_name := "Error"; err_message := message; err_code := None;
     err_reason := ""; err_file := None;
     err_line := JUndefined; err_column := JUndefined |}.

(** ** Settled promises *)

(** A promise that has settled: rejected with an error or resolved with a
    value.  The same type stands for a call that throws or returns. *)
Definition promise (A : Type) : Type := js_error + A.

Definition reject {A} (e : js_error) : promise A := inl e.
Definition resolve {A} (a : A) : promise A := inr a.

(** [p.then(f)]: a rejection passes through, [f] may itself throw. *)
Definition then_ {A B} (p : promise A) (f : A -> promise B) : promise B :=
  match p with
  | inl e => inl e
  | inr a => f a
  end.

(** [p.catch(h)]: a value passes through, [h] may return or rethrow. *)
Definition catch_ {A} (p : promise A) (h : js_error -> promise A) : promise A :=
  match p with
  | inl e => h e
  | inr a => inr a
  end.

Notation "p '.then' f" := (then_ p f) (at level 50, left associativity, only parsing).
Notation "p '.catch' h" := (catch_ p h) (at level 50, left associativity, only parsing).

(** ** Results *)

Record warning : Type := mkWarning {
  line : jsval;
  column : jsval;
  rule : string;
  severity : string;
  text : string
}.

(** [stylelint$result]; the entries of [deprecations] and
    [invalidOptionWarnings] are kept as their texts. *)
Record stylelint_result : Type := mkResult {
  source : string;
  deprecations : list string;
  invalidOptionWarnings : list string;
  errored : bool;
  warnings : list warning
}.

(** A formatter: by its contract a function from the results to the
    rendered report. *)
Definition formatter_fn : Type := list stylelint_result -> string.

(** Calling a value that is no formatter with the results: the call returns
    a string or throws. *)
Definition foreign_call : Type := list stylelint_result -> promise string.

(** What [formatterFunction] may hold: a formatter, or another value found
    under the name that was asked for. *)
Inductive formatter_value : Type :=
  | Formatter (f : formatter_fn)
  | Foreign (call : foreign_call).

(** ** Constants of the module *)

Definition DEFAULT_IGNORE_FILENAME : string := ".stylelintignore".
Definition FILE_NOT_FOUND_ERROR_CODE : string := "ENOENT".
Definition ALWAYS_IGNORED_GLOBS : list string :=
  ["**/node_modules/**"; "**/bower_components/**"].

Definition CSS_SYNTAX_ERROR : string := "CssSyntaxError".
Definition INPUT_PLACEHOLDER : string := "<input css 1>".

Definition FILES_OR_CODE_MESSAGE : string :=
  "You must pass stylelint a `files` glob or a `code` string, though not both".
Definition FORMATTER_MESSAGE : string :=
  "You must use a valid formatter option: 'json', 'string', 'verbose', or a function".

(** ** [convertCssSyntaxErrorToResult] and [handleError] *)

Definition convertCssSyntaxErrorToResult (error : js_error) : promise stylelint_result :=
  if negb (err_name error =? CSS_SYNTAX_ERROR) then reject error
  else resolve
    {| source := or_default (err_file error) INPUT_PLACEHOLDER;
       deprecations := [];
       invalidOptionWarnings := [];
       errored := true;
       warnings :=
         [ {| line := err_line error;
              column := err_column error;
              rule := err_name error;
              severity := "error";
              text := err_reason error +:+ " (" +:+ err_name error +:+ ")" |} ] |}.

Definition handleError (error : js_error) : promise stylelint_result :=
  if err_name error =? CSS_SYNTAX_ERROR
  then convertCssSyntaxErrorToResult error
  else reject error.

(** ** [String.prototype.split] on [/\r?\n/] *)

Definition LF : ascii := "010"%char.
Definition CR : ascii := "013"%char.

(** [cur] is the piece being read; a line feed, alone or after a carriage
    return, closes it.  A string without separators is its own single piece,
    so the empty string splits into one empty piece. *)
Fixpoint split_from (cur : string) (s : string) : list string :=
  match s with
  | EmptyString => [cur]
  | String c rest =>
      if Ascii.eqb c LF then cur :: split_from "" rest
      else
        match rest with
        | String c' rest' =>
            if Ascii.eqb c CR && Ascii.eqb c' LF
            then cur :: split_from "" rest'
            else split_from (cur +:+ String c "") rest
        | EmptyString => split_from (cur +:+ String c "") rest
        end
  end.

Definition split_lines (s : string) : list string := split_from "" s.

(** ** The [ignore] matcher *)

Definition is_space (c : ascii) : bool :=
  Ascii.eqb c " "%char || Ascii.eqb c "009"%char || Ascii.eqb c "011"%char
  || Ascii.eqb c "012"%char || Ascii.eqb c CR.

Definition is_blank (l : string) : bool :=
  forallb is_space (list_ascii_of_string l).

(** A line that starts with [#] is a comment. *)
Definition is_comment (l : string) : bool :=
  match l with
  | String c _ => Ascii.eqb c "#"%char
  | EmptyString => false
  end.

(** A line that starts with [!] negates its pattern. *)
Definition is_negated (l : string) : bool :=
  match l with
  | String c _ => Ascii.eqb c "!"%char
  | EmptyString => false
  end.

(** Modelled from the spec: the [ignore] package ([ignore().add(lines)] and
    [ignorer.filter(paths)]) is not part of the sources.  Lines are loaded as
    rules with the semantics of version-control ignore files: a blank line
    and a comment line carry no rule, and the rules are tried in the order
    of the lines, a negated rule taking back what an earlier rule ignored
    and a later rule ignoring it again.  [filter] returns the paths that are
    not ignored, in their order.  Whether the pattern of a line matches a
    path is left to [rule_matches], which is given the line as written; a
    path is tested by itself, not through the directories above it. *)
Definition ignore_add (lines : list string) : list string :=
  List.filter (fun l => negb (is_blank l) && negb (is_comment l)) lines.

(** One rule: it is tried only when it could change the verdict. *)
Definition ignore_step (rule_matches : string -> string -> bool) (path : string)
    (matched : bool) (rule : string) : bool :=
  if Bool.eqb matched (is_negated rule)
  then xorb (is_negated rule) (rule_matches rule path)
  else matched.

(** Is the path ignored? *)
Definition ignore_test (rule_matches : string -> string -> bool)
    (rules : list string) (path : string) : bool :=
  fold_left (ignore_step rule_matches path) rules false.

Definition ignore_filter (rule_matches : string -> string -> bool)
    (rules : list string) (paths : list string) : list string :=
  List.filter (fun p => negb (ignore_test rule_matches rules p)) paths.

(** ** [globby] *)

Definition isNegative (pattern : string) : bool :=
  match pattern with
  | String c _ => Ascii.eqb c "!"%char
  | EmptyString => false
  end.

(** [pattern.slice(1)] *)
Definition slice1 (pattern : string) : string :=
  match pattern with
  | String _ rest => rest
  | EmptyString => ""
  end.

(** Modelled from the spec: the [globby] package is not part of the sources.
    Each pattern that is not negated is expanded on its own, and the negated
    patterns that stand after it in the list are removed from its matches:
    this is why the position of a negated pattern matters.  A glob task is a
    pattern with the globs to leave out. *)
Fixpoint generateGlobTasks (patterns : list string) : list (string * list string) :=
  match patterns with
  | [] => []
  | pattern :: rest =>
      if isNegative pattern then generateGlobTasks rest
      else (pattern, map slice1 (List.filter isNegative rest)) :: generateGlobTasks rest
  end.

(** The union of the expansions keeps the first occurrence of each path. *)
Fixpoint uniq_from (seen : list string) (l : list string) : list string :=
  match l with
  | [] => []
  | x :: rest =>
      if existsb (String.eqb x) seen then uniq_from seen rest
      else x :: uniq_from (x :: seen) rest
  end.

Definition arrayUnion (ls : list (list string)) : list string :=
  uniq_from [] (concat ls).

(** The results of a list of settled calls, or the first failure. *)
Fixpoint sequence {A} (ps : list (promise A)) : promise (list A) :=
  match ps with
  | [] => resolve []
  | p :: rest =>
      then_ p (fun a => then_ (sequence rest) (fun l => resolve (a :: l)))
  end.

Section Globby.
(** [glob pattern]: the paths one pattern expands to, or an I/O failure;
    [glob_match g p]: does path [p] match glob [g]. *)
Variable glob : string -> promise (list string).
Variable glob_match : string -> string -> bool.

Definition excluded (ignore : list string) (p : string) : bool :=
  existsb (fun g => glob_match g p) ignore.

Definition runGlobTask (task : string * list string) : promise (list string) :=
  then_ (glob (fst task))
        (fun paths => resolve (List.filter (fun p => negb (excluded (snd task) p)) paths)).

Definition globby (patterns : list string) : promise (list string) :=
  then_ (sequence (map runGlobTask (generateGlobTasks patterns)))
        (fun paths => resolve (arrayUnion paths)).
End Globby.

(** ** [Promise.all] *)

(** The state of [Promise.all(tasks)] while its tasks settle: one slot per
    task until a rejection is seen, which is final. *)
Inductive all_state (A : Type) : Type :=
  | Collecting (slots : list (option A))
  | Failed (e : js_error).
Arguments Collecting {A} slots.
Arguments Failed {A} e.

Inductive all_outcome (A : Type) : Type :=
  | AllResolved (values : list A)
  | AllRejected (e : js_error)
  | AllPending.
Arguments AllResolved {A} values.
Arguments AllRejected {A} e.
Arguments AllPending {A}.

(** Task [i] settles: its value goes to slot [i], its rejection rejects the
    whole, and nothing changes once the whole has been rejected. *)
Definition settle_task {A} (tasks : list (promise A)) (st : all_state A) (i : nat)
    : all_state A :=
  match st with
  | Failed e => Failed e
  | Collecting slots =>
      match tasks !! i with
      | Some (inr v) => Collecting (<[i := Some v]> slots)
      | Some (inl e) => Failed e
      | None => Collecting slots
      end
  end.

(** All slots filled, or [None]. *)
Fixpoint filled {A} (slots : list (option A)) : option (list A) :=
  match slots with
  | [] => Some []
  | Some v :: rest =>
      match filled rest with
      | Some vs => Some (v :: vs)
      | None => None
      end
  | None :: _ => None
  end.

(** [order] lists the task indices in the order the tasks settle.  The
    promise resolves with the values in task order once every slot is
    filled, and stays pending while a task has not settled. *)
Definition promise_all {A} (tasks : list (promise A)) (order : list nat) : all_outcome A :=
  match fold_left (settle_task tasks) order (Collecting (replicate (length tasks) None)) with
  | Failed e => AllRejected e
  | Collecting slots =>
      match filled slots with
      | Some values => AllResolved values
      | None => AllPending
      end
  end.

(** ** Options, collaborators and the report *)

(** [options.files]: absent, one pattern, or an array of patterns. *)
Inductive files_option : Type :=
  | FilesUndefined
  | FilesString (pattern : string)
  | FilesArray (patterns : list string).

(** [!files] is true of [undefined] and of the empty string; an array, even
    an empty one, is truthy. *)
Definition files_truthy (files : files_option) : bool :=
  match files with
  | FilesUndefined => false
  | FilesString pattern => negb (pattern =? "")
  | FilesArray _ => true
  end.

(** [options.formatter] by its [typeof]. *)
Inductive formatter_option : Type :=
  | FormatterString (name : string)
  | FormatterFunction (f : formatter_fn)
  | FormatterOther.

(** What [_lintSource] is called with. *)
Inductive lint_input : Type :=
  | InCode (code : jsval) (codeFilename : option string)
  | InFile (filePath : string).

(** The effects of a run, in the order they are performed. *)
Inductive event : Type :=
  | ReadFile (path : string)
  | CreateStylelint
  | Globby (patterns : list string)
  | LintSource (input : lint_input).

Module Report.
(** [stylelint$standaloneReturnValue]; [needlessDisables] is [None] when
    the property is not set. *)
Record t (needless : Type) : Type := mk {
  errored : bool;
  output : string;
  results : list stylelint_result;
  needlessDisables : option needless
}.
Arguments mk {needless}.
Arguments errored {needless}.
Arguments output {needless}.
Arguments results {needless}.
Arguments needlessDisables {needless}.
End Report.

(** How an invocation ends: an exception thrown by the call itself, the
    returned promise rejected or resolved, or the returned promise still
    pending because a lint operation has not settled. *)
Inductive outcome (needless : Type) : Type :=
  | Threw (e : js_error)
  | Rejected (e : js_error)
  | Resolved (r : Report.t needless)
  | Pending.
Arguments Threw {needless} e.
Arguments Rejected {needless} e.
Arguments Resolved {needless} r.
Arguments Pending {needless}.

Section Standalone.
(** The engine's raw outcome, the needless-disables structure and the
    options handed unread to [createStylelint] ([config], [configFile],
    [configBasedir], [configOverrides], [ignoreDisables], [syntax],
    [customSyntax]) are opaque here. *)
Variables postcss_result needless passthrough : Type.

Record options : Type := mkOptions {
  files : files_option;
  code : jsval;
  codeFilename : option string;
  engineOptions : passthrough;
  reportNeedlessDisables : bool;
  formatter : formatter_option;
  ignorePath : option string;
  disableDefaultIgnores : bool
}.

(** The object [createStylelint] returns.  Both methods report a failure
    through the promise they return. *)
Record Engine : Type := mkEngine {
  _lintSource : lint_input -> promise postcss_result;
  _createStylelintResult : postcss_result -> option string -> promise stylelint_result
}.

(** Everything the module requires or reads from the process. *)
Record World : Type := mkWorld {
  cwd : string;
  isAbsolute : string -> bool;
  path_resolve : string -> string -> string;
  path_join : string -> string -> string;
  path_relative : string -> string -> string;
  readFileSync : string -> promise string;
  glob : string -> promise (list string);
  glob_match : string -> string -> bool;
  rule_matches : string -> string -> bool;
  formatters_json : formatter_fn;
  formatters_string : formatter_fn;
  formatters_verbose : formatter_fn;
  formatters_inherited : string -> option foreign_call;
  createStylelint : passthrough -> bool -> Engine;
  needlessDisables : list stylelint_result -> needless
}.

Variable w : World.

(** Modelled from the spec: [./formatters] is not part of the sources.  The
    registry is an object that holds the three built-in formatters the error
    message of the module lists.  [formatters[name]] is a property lookup:
    besides these three it finds what the object inherits
    ([formatters_inherited]: [constructor], [toString], [__proto__] and the
    like), which is no formatter; [None] is [undefined]. *)
Definition formatters (name : string) : option formatter_value :=
  if name =? "json" then Some (Formatter (formatters_json w))
  else if name =? "string" then Some (Formatter (formatters_string w))
  else if name =? "verbose" then Some (Formatter (formatters_verbose w))
  else
    match formatters_inherited w name with
    | Some call => Some (Foreign call)
    | None => None
    end.

(** *** The ignore file *)

Definition ignoreFilePath (o : options) : string :=
  or_default (ignorePath o) DEFAULT_IGNORE_FILENAME.

Definition absoluteIgnoreFilePath (o : options) : string :=
  if isAbsolute w (ignoreFilePath o) then ignoreFilePath o
  else path_resolve w (cwd w) (ignoreFilePath o).

(** The [try]/[catch] around [fs.readFileSync]: only a missing file leaves
    [ignoreText] at its initial empty string. *)
Definition readIgnoreText (o : options) : promise string :=
  catch_ (readFileSync w (absoluteIgnoreFilePath o))
    (fun readError =>
       if negb (match err_code readError with
                | Some c => c =? FILE_NOT_FOUND_ERROR_CODE
                | None => false
                end)
       then reject readError
       else resolve "").

(** [ignore().add(ignoreText.split(/\r?\n/))], as its rules. *)
Definition ignorer (ignoreText : string) : list string :=
  ignore_add (split_lines ignoreText).

(** *** Validation of [files] and [code] *)

Definition isValidCode (o : options) : bool := typeof_string (code o).

(** The condition of the [if] that throws. *)
Definition invalidInput (o : options) : bool :=
  (negb (files_truthy (files o)) && negb (isValidCode o))
  || (files_truthy (files o) && (truthy (code o) || isValidCode o)).

(** *** Formatter selection *)

(** The value of [formatterFunction] after the selection; [None] is the
    case that returns the rejected promise. *)
Definition formatterFunction (o : options) : option formatter_value :=
  match formatter o with
  | FormatterString name => formatters name
  | FormatterFunction f => Some (Formatter f)
  | FormatterOther => Some (Formatter (formatters_json w))
  end.

(** The formatter selected, when the value selected is a formatter. *)
Definition selectFormatter (o : options) : option formatter_fn :=
  match formatterFunction o with
  | Some (Formatter f) => Some f
  | _ => None
  end.

(** *** [prepareReturnValue] *)

Definition prepareReturnValue (o : options) (formatterFunction : formatter_fn)
    (stylelintResults : list stylelint_result) : Report.t needless :=
  let errored := existsb (fun result => errored result) stylelintResults in
  let returnValue :=
    {| Report.errored := errored;
       Report.output := formatterFunction stylelintResults;
       Report.results := stylelintResults;
       Report.needlessDisables := None |} in
  if reportNeedlessDisables o
  then {| Report.errored := Report.errored returnValue;
          Report.output := Report.output returnValue;
          Report.results := Report.results returnValue;
          Report.needlessDisables := Some (needlessDisables w stylelintResults) |}
  else returnValue.

(** [prepareReturnValue] with the value selected.  The call of a value that
    is no formatter may throw, and what it returns becomes the output. *)
Definition callPrepareReturnValue (o : options) (value : formatter_value)
    (stylelintResults : list stylelint_result) : promise (Report.t needless) :=
  match value with
  | Formatter f => resolve (prepareReturnValue o f stylelintResults)
  | Foreign call =>
      call stylelintResults
        .then (fun output =>
                 resolve (prepareReturnValue o (fun _ => output) stylelintResults))
  end.

(** *** Linting one input *)

Definition stylelint (o : options) : Engine :=
  createStylelint w (engineOptions o) (reportNeedlessDisables o).

Definition absoluteCodeFilename (o : options) : option string :=
  match codeFilename o with
  | Some f => if negb (isAbsolute w f) then Some (path_join w (cwd w) f) else Some f
  | None => None
  end.

Definition codeInput (o : options) : lint_input :=
  InCode (code o) (absoluteCodeFilename o).

(** [_lintSource({ code, codeFilename }).then(...)]: the lint attempt on the
    inline source, which the engine or the conversion of its outcome may
    fail. *)
Definition codeAttempt (o : options) : promise stylelint_result :=
  _lintSource (stylelint o) (codeInput o)
    .then (fun postcssResult => _createStylelintResult (stylelint o) postcssResult None).

(** [....catch(handleError)] *)
Definition lintCode (o : options) : promise stylelint_result :=
  codeAttempt o .catch handleError.

Definition absoluteFilepath (filePath : string) : string :=
  if negb (isAbsolute w filePath) then path_join w (cwd w) filePath else filePath.

Definition fileInput (filePath : string) : lint_input :=
  InFile (absoluteFilepath filePath).

(** [_lintSource({ filePath }).then(...)]: the lint attempt on one file. *)
Definition fileAttempt (o : options) (filePath : string) : promise stylelint_result :=
  _lintSource (stylelint o) (fileInput filePath)
    .then (fun postcssResult =>
             _createStylelintResult (stylelint o) postcssResult (Some filePath)).

(** [....catch(handleError)] *)
Definition lintFile (o : options) (filePath : string) : promise stylelint_result :=
  fileAttempt o filePath .catch handleError.

(** *** File mode: the pattern list and the paths that survive *)

(** [files] as a list, with the negated default globs after it unless
    [disableDefaultIgnores] is set. *)
Definition fileList (o : options) : list string :=
  let fileList :=
    match files o with
    | FilesString pattern => [pattern]
    | FilesArray patterns => patterns
    | FilesUndefined => []
    end in
  if negb (disableDefaultIgnores o)
  then fileList ++ map (fun glob => "!" +:+ glob) ALWAYS_IGNORED_GLOBS
  else fileList.

(** The paths of the expansion, relative to [cwd], that the ignorer keeps. *)
Definition keptPaths (ignoreText : string) (filePaths : list string) : list string :=
  ignore_filter (rule_matches w) (ignorer ignoreText)
    (map (fun p => path_relative w (cwd w) p) filePaths).

(** [Promise.all(getStylelintResults)], and [Promise.all([])] when no path
    is left. *)
Definition lintFiles (o : options) (filePaths : list string) (order : list nat)
    : all_outcome stylelint_result :=
  if (length filePaths =? 0)%nat then promise_all [] order
  else promise_all (map (lintFile o) filePaths) order.

(** *** The exported function *)

Definition settled (p : promise (Report.t needless)) : outcome needless :=
  match p with
  | inl e => Rejected e
  | inr r => Resolved r
  end.

(** [order] is the order in which the lint operations of file mode settle. *)
Definition standalone (o : options) (order : list nat) : list event * outcome needless :=
  let io_read := [ReadFile (absoluteIgnoreFilePath o)] in
  match readIgnoreText o with
  | inl readError => (io_read, Threw readError)
  | inr ignoreText =>
      if invalidInput o then (io_read, Threw (new_Error FILES_OR_CODE_MESSAGE))
      else
        match formatterFunction o with
        | None => (io_read, Rejected (new_Error FORMATTER_MESSAGE))
        | Some formatterFunction =>
            let io_engine := io_read ++ [CreateStylelint] in
            if negb (files_truthy (files o)) then
              (io_engine ++ [LintSource (codeInput o)],
               settled
                 (lintCode o
                    .then (fun stylelintResult =>
                             callPrepareReturnValue o formatterFunction [stylelintResult])))
            else
              let io_glob := io_engine ++ [Globby (fileList o)] in
              match globby (glob w) (glob_match w) (fileList o) with
              | inl e => (io_glob, Rejected e)
              | inr filePaths =>
                  let filePaths := keptPaths ignoreText filePaths in
                  (io_glob ++ map (fun filePath => LintSource (fileInput filePath)) filePaths,
                   match lintFiles o filePaths order with
                   | AllResolved stylelintResults =>
                       settled (callPrepareReturnValue o formatterFunction stylelintResults)
                   | AllRejected e => Rejected e
                   | AllPending => Pending
                   end)
              end
        end
  end.

End Standalone.

Arguments mkOptions {passthrough}.
Arguments files {passthrough}.
Arguments code {passthrough}.
Arguments codeFilename {passthrough}.
Arguments engineOptions {passthrough}.
Arguments reportNeedlessDisables {passthrough}.
Arguments formatter {passthrough}.
Arguments ignorePath {passthrough}.
Arguments disableDefaultIgnores {passthrough}.
Arguments isValidCode {passthrough}.
Arguments invalidInput {passthrough}.
Arguments ignoreFilePath {passthrough}.
Arguments fileList {passthrough}.
Arguments mkEngine {postcss_result}.
Arguments _lintSource {postcss_result}.
Arguments _createStylelintResult {postcss_result}.
Arguments cwd {postcss_result needless passthrough}.
Arguments isAbsolute {postcss_result needless passthrough}.
Arguments path_resolve {postcss_result needless passthrough}.
Arguments path_join {postcss_result needless passthrough}.
Arguments path_relative {postcss_result needless passthrough}.
Arguments readFileSync {postcss_result needless passthrough}.
Arguments glob {postcss_result needless passthrough}.
Arguments glob_match {postcss_result needless passthrough}.
Arguments rule_matches {postcss_result needless passthrough}.
Arguments formatters_json {postcss_result needless passthrough}.
Arguments formatters_string {postcss_result needless passthrough}.
Arguments formatters_verbose {postcss_result needless passthrough}.
Arguments createStylelint {postcss_result needless passthrough}.
Arguments needlessDisables {postcss_result needless passthrough}.
Arguments formatters_inherited {postcss_result needless passthrough}.
Arguments formatters {postcss_result needless passthrough}.
Arguments formatterFunction {postcss_result needless passthrough}.
Arguments callPrepareReturnValue {postcss_result needless passthrough}.
Arguments absoluteIgnoreFilePath {postcss_result needless passthrough}.
Arguments readIgnoreText {postcss_result needless passthrough}.
Arguments selectFormatter {postcss_result needless passthrough}.
Arguments prepareReturnValue {postcss_result needless passthrough}.
Arguments stylelint {postcss_result needless passthrough}.
Arguments absoluteCodeFilename {postcss_result needless passthrough}.
Arguments codeInput {postcss_result needless passthrough}.
Arguments codeAttempt {postcss_result needless passthrough}.
Arguments lintCode {postcss_result needless passthrough}.
Arguments absoluteFilepath {postcss_result needless passthrough}.
Arguments fileInput {postcss_result needless passthrough}.
Arguments fileAttempt {postcss_result needless passthrough}.
Arguments lintFile {postcss_result needless passthrough}.
Arguments keptPaths {postcss_result needless passthrough}.
Arguments lintFiles {postcss_result needless passthrough}.
Arguments settled {needless}.
Arguments standalone {postcss_result needless passthrough}.

(** ** A small project to run the definitions on *)

Module Demo.

Definition has_prefix (pre s : string) : bool := String.prefix pre s.

Definition under (dir p : string) : bool :=
  has_prefix (dir +:+ "/") p.

Definition strip (pre s : string) : string :=
  if has_prefix pre s then String.substring (String.length pre) (String.length s - String.length pre) s
  else s.

(** Globs of the project: a name stands for itself, ["*.css"] for the
    style sheets at the root, ["**/*.css"] for all of them. *)
Definition demo_glob (pattern : string) : promise (list string) :=
  if pattern =? "*.css" then resolve ["/proj/a.css"; "/proj/b.css"]
  else if pattern =? "**/*.css"
  then resolve ["/proj/a.css"; "/proj/b.css"; "/proj/node_modules/dep/x.css"]
  else resolve ["/proj/" +:+ pattern].

Definition demo_glob_match (g p : string) : bool :=
  if g =? "**/node_modules/**" then under "/proj/node_modules" p
  else if g =? "**/bower_components/**" then under "/proj/bower_components" p
  else ("/proj/" +:+ g) =? p.

Definition syntaxError (file : option string) : js_error :=
  {| err_name := "CssSyntaxError"; err_message := "Unclosed block";
     err_code := None; err_reason := "Unclosed block"; err_file := file;
     err_line := JNum 1; err_column := JNum 1 |}.

Definition typeError : js_error :=
  {| err_name := "TypeError"; err_message := "Cannot read property";
     err_code := None; err_reason := ""; err_file := None;
     err_line := JUndefined; err_column := JUndefined |}.

Definition fsError (c : string) : js_error :=
  {| err_name := "Error"; err_message := c; err_code := Some c;
     err_reason := ""; err_file := None;
     err_line := JUndefined; err_column := JUndefined |}.

(** The engine: [bad.css] and the source ["a {"] do not parse, [crash.css]
    makes the engine fail, everything else is clean. *)
Definition demo_engine : Engine string :=
  {| _lintSource := fun input =>
       match input with
       | InFile f =>
           if f =? "/proj/bad.css" then reject (syntaxError (Some f))
           else if f =? "/proj/crash.css" then reject typeError
           else resolve f
       | InCode (JStr "a {") _ => reject (syntaxError None)
       | InCode _ (Some f) => resolve f
       | InCode _ None => resolve INPUT_PLACEHOLDER
       end;
     _createStylelintResult := fun postcssResult filePath =>
       resolve {| source := postcssResult; deprecations := [];
                  invalidOptionWarnings := []; errored := false; warnings := [] |} |}.

(** What the registry object inherits: [toString], which called this way
    returns a fixed string, and [__proto__], an object, whose call throws. *)
Definition demo_inherited (name : string) : option foreign_call :=
  if name =? "toString" then Some (fun _ => resolve "[object Undefined]")
  else if name =? "__proto__" then Some (fun _ => reject typeError)
  else None.

Definition world (read : string -> promise string) : World string nat unit :=
  {| cwd := "/proj";
     isAbsolute := has_prefix "/";
     path_resolve := fun a b => a +:+ "/" +:+ b;
     path_join := fun a b => a +:+ "/" +:+ b;
     path_relative := fun a b => strip (a +:+ "/") b;
     readFileSync := read;
     glob := demo_glob;
     glob_match := demo_glob_match;
     rule_matches := String.eqb;
     formatters_json := fun _ => "json";
     formatters_string := fun _ => "string";
     formatters_verbose := fun _ => "verbose";
     formatters_inherited := demo_inherited;
     createStylelint := fun _ _ => demo_engine;
     needlessDisables := fun results => length results |}.

(** No ignore file, an ignore file that lists [b.css], and one that cannot
    be read. *)
Definition no_ignore_file : World string nat unit :=
  world (fun _ => reject (fsError "ENOENT")).
Definition ignore_b : World string nat unit :=
  world (fun _ => resolve ("b.css" +:+ String LF "")).
Definition unreadable : World string nat unit :=
  world (fun _ => reject (fsError "EACCES")).

Definition opts (files : files_option) (code : jsval) : options unit :=
  {| files := files; code := code; codeFilename := None; engineOptions := tt;
     reportNeedlessDisables := false; formatter := FormatterOther;
     ignorePath := None; disableDefaultIgnores := false |}.

(** Both [files] and [code]; an unknown formatter name; a request for the
    needless-disables analysis. *)
Definition both : options unit := opts (FilesString "a.css") (JStr "a {}").

Definition unknown_formatter : options unit :=
  {| files := FilesUndefined; code := JStr "a {}"; codeFilename := None;
     engineOptions := tt; reportNeedlessDisables := false;
     formatter := FormatterString "not-a-real-formatter";
     ignorePath := None; disableDefaultIgnores := false |}.

Definition inherited_formatter : options unit :=
  {| files := FilesUndefined; code := JStr "a {}"; codeFilename := None;
     engineOptions := tt; reportNeedlessDisables := false;
     formatter := FormatterString "__proto__";
     ignorePath := None; disableDefaultIgnores := false |}.

Definition with_needless : options unit :=
  {| files := FilesUndefined; code := JStr "a {}"; codeFilename := None;
     engineOptions := tt; reportNeedlessDisables := true;
     formatter := FormatterOther;
     ignorePath := None; disableDefaultIgnores := false |}.

End Demo.

(** A completion order given as a list covers the first [n] indices. *)
Definition settles_allb (order : list nat) (n : nat) : bool :=
  forallb (fun i => existsb (Nat.eqb i) order) (seq 0 n).


(** ** Vocabulary of the statements *)

(** Every task settles: each index occurs in the completion order. *)
Definition settles_all (order : list nat) (n : nat) : Prop :=
  forall i, i < n -> i ∈ order.

(** [files] and [code] as the validation reads them: [files] is supplied
    when it is truthy, [code] when it is a string or truthy. *)
Definition supplied_both {passthrough} (o : options passthrough) : bool :=
  files_truthy (files o) && (truthy (code o) || typeof_string (code o)).

Definition supplied_neither {passthrough} (o : options passthrough) : bool :=
  negb (files_truthy (files o)) && negb (truthy (code o) || typeof_string (code o)).

(** The invocation fails with [e], thrown by the call or as the rejection of
    the promise it returned. *)
Definition fails_with {needless} (out : outcome needless) (e : js_error) : Prop :=
  out = Threw e \/ out = Rejected e.

(** The two errors raised for a wrong combination of options. *)
Definition ConfigurationError (e : js_error) : Prop :=
  e = new_Error FILES_OR_CODE_MESSAGE \/ e = new_Error FORMATTER_MESSAGE.

(** Effects that are part of the lint work proper: creating the engine,
    expanding the globs, linting an input. *)
Definition is_lint_work (ev : event) : bool :=
  match ev with
  | ReadFile _ => false
  | CreateStylelint | Globby _ | LintSource _ => true
  end.

Definition no_lint_work (trace : list event) : bool :=
  forallb (fun ev => negb (is_lint_work ev)) trace.

(** No effect at all. *)
Definition no_io (trace : list event) : Prop := trace = [].

(** The inputs whose lint operation was started, in the order of the calls. *)
Fixpoint started (trace : list event) : list lint_input :=
  match trace with
  | [] => []
  | LintSource input :: rest => input :: started rest
  | _ :: rest => started rest
  end.

(** The record that stands for a parse failure [e]: flagged [errored], with
    one warning that carries the failure's type name as its rule, its reason
    followed by the type name in parentheses as its text, its position and
    the severity "error"; the source is the failure's file, or the
    placeholder when the failure has none (an empty file name counts as
    none). *)
Definition parse_failure_record (e : js_error) (r : stylelint_result) : Prop :=
  errored r = true
  /\ deprecations r = [] /\ invalidOptionWarnings r = []
  /\ (exists wn, warnings r = [wn]
        /\ rule wn = err_name e
        /\ text wn = err_reason e +:+ " (" +:+ err_name e +:+ ")"
        /\ line wn = err_line e /\ column wn = err_column e
        /\ severity wn = "error")
  /\ (forall f, err_file e = Some f -> f <> "" -> source r = f)
  /\ (err_file e = None \/ err_file e = Some "" -> source r = INPUT_PLACEHOLDER).



(** [pieces.join("\n")] *)
Fixpoint join_lines (pieces : list string) : string :=
  match pieces with
  | [] => ""
  | [piece] => piece
  | piece :: rest => piece +:+ String LF (join_lines rest)
  end.

Fixpoint count_char (c : ascii) (s : string) : nat :=
  match s with
  | EmptyString => 0
  | String c' rest => (if Ascii.eqb c' c then 1 else 0) + count_char c rest
  end.

Definition has_char (c : ascii) (s : string) : bool :=
  negb (count_char c s =? 0)%nat.

(** The same text with every line feed written as carriage return, line
    feed. *)
Fixpoint crlf (s : string) : string :=
  match s with
  | EmptyString => ""
  | String c rest =>
      if Ascii.eqb c LF then String CR (String LF (crlf rest))
      else String c (crlf rest)
  end.

(** The options with another [files], another [formatter]. *)
Definition with_files {passthrough} (f : files_option) (o : options passthrough)
    : options passthrough :=
  {| files := f; code := code o; codeFilename := codeFilename o;
     engineOptions := engineOptions o;
     reportNeedlessDisables := reportNeedlessDisables o;
     formatter := formatter o; ignorePath := ignorePath o;
     disableDefaultIgnores := disableDefaultIgnores o |}.

Definition with_formatter {passthrough} (fm : formatter_option) (o : options passthrough)
    : options passthrough :=
  {| files := files o; code := code o; codeFilename := codeFilename o;
     engineOptions := engineOptions o;
     reportNeedlessDisables := reportNeedlessDisables o;
     formatter := fm; ignorePath := ignorePath o;
     disableDefaultIgnores := disableDefaultIgnores o |}.

(** The same project with other file contents. *)
Definition with_readFileSync {postcss_result needless passthrough}
    (read : string -> promise string) (w : World postcss_result needless passthrough)
    : World postcss_result needless passthrough :=
  {| cwd := cwd w; isAbsolute := isAbsolute w; path_resolve := path_resolve w;
     path_join := path_join w; path_relative := path_relative w;
     readFileSync := read;
     glob := glob w; glob_match := glob_match w; rule_matches := rule_matches w;
     formatters_json := formatters_json w; formatters_string := formatters_string w;
     formatters_verbose := formatters_verbose w;
     formatters_inherited := formatters_inherited w;
     createStylelint := createStylelint w; needlessDisables := needlessDisables w |}.

(** The outcome with the report rendered by another formatter. *)
Definition rendered_by {needless} (f : formatter_fn) (out : outcome needless)
    : outcome needless :=
  match out with
  | Resolved r =>
      Resolved {| Report.errored := Report.errored r;
                  Report.output := f (Report.results r);
                  Report.results := Report.results r;
                  Report.needlessDisables := Report.needlessDisables r |}
  | other => other
  end.

(** Inputs for the further properties: an ignore text of two lines, and the
    inline options of the small project with a formatter of the caller. *)
Module Inputs.

Definition two_lines : string :=
  "a.css" +:+ String LF ("b.css" +:+ String LF "").

Definition custom_formatter : options unit :=
  {| files := FilesUndefined; code := JStr "a {}"; codeFilename := None;
     engineOptions := tt; reportNeedlessDisables := false;
     formatter := FormatterFunction (fun results => "custom");
     ignorePath := None; disableDefaultIgnores := false |}.

Definition clean (file : string) : stylelint_result :=
  {| source := file; deprecations := []; invalidOptionWarnings := [];
     errored := false; warnings := [] |}.

(** An ignore file that ignores the style sheets and takes [a.css] back. *)
Definition two_rules : string := "*.css" +:+ String LF "!a.css".

Definition two_rules_match (line path : string) : bool :=
  if line =? "*.css" then (path =? "a.css") || (path =? "b.css")
  else if line =? "!a.css" then path =? "a.css"
  else line =? path.

Definition negating : World string nat unit :=
  {| cwd := cwd Demo.no_ignore_file;
     isAbsolute := isAbsolute Demo.no_ignore_file;
     path_resolve := path_resolve Demo.no_ignore_file;
     path_join := path_join Demo.no_ignore_file;
     path_relative := path_relative Demo.no_ignore_file;
     readFileSync := fun _ => resolve two_rules;
     glob := glob Demo.no_ignore_file;
     glob_match := glob_match Demo.no_ignore_file;
     rule_matches := two_rules_match;
     formatters_json := formatters_json Demo.no_ignore_file;
     formatters_string := formatters_string Demo.no_ignore_file;
     formatters_verbose := formatters_verbose Demo.no_ignore_file;
     formatters_inherited := formatters_inherited Demo.no_ignore_file;
     createStylelint := createStylelint Demo.no_ignore_file;
     needlessDisables := needlessDisables Demo.no_ignore_file |}.

(** A formatter name that the registry object inherits and whose call
    returns. *)
Definition toString_formatter : options unit :=
  {| files := FilesUndefined; code := JStr "a {}"; codeFilename := None;
     engineOptions := tt; reportNeedlessDisables := false;
     formatter := FormatterString "toString";
     ignorePath := None; disableDefaultIgnores := false |}.

End Inputs.

(** * Properties *)

(** ** Promises *)

Lemma sequence_resolved {A} (ps : list (promise A)) (vs : list A) :
  sequence ps = inr vs <-> ps = map inr vs.
Proof.
  revert vs. induction ps as [|p ps IH]; intros vs; simpl.
  - split.
    + intros H. injection H as <-. reflexivity.
    + destruct vs; [reflexivity | discriminate].
  - destruct p as [e|a]; simpl.
    + split; [discriminate | destruct vs; discriminate].
    + destruct (sequence ps) as [e|l] eqn:Hs; simpl.
      * split; [discriminate |].
        destruct vs as [|v vs]; [discriminate |]. simpl. intros H.
        injection H as -> Hps. apply IH in Hps. discriminate.
      * split.
        -- intros H. injection H as <-. simpl. f_equal. apply IH. reflexivity.
        -- destruct vs as [|v vs]; [discriminate |]. simpl. intros H.
           injection H as -> Hps. apply IH in Hps. injection Hps as ->. reflexivity.
Qed.

Lemma sequence_rejected {A} (ps : list (promise A)) (e : js_error) :
  sequence ps = inl e -> inl e ∈ ps.
Proof.
  induction ps as [|p ps IH]; simpl; [discriminate |].
  destruct p as [e'|a]; simpl.
  - intros H. injection H as ->. left.
  - destruct (sequence ps) as [e'|l]; simpl; [|discriminate].
    intros H. injection H as ->. right. apply IH. reflexivity.
Qed.

Lemma sequence_length {A} (ps : list (promise A)) (vs : list A) :
  sequence ps = inr vs -> length vs = length ps.
Proof.
  intros H. apply sequence_resolved in H. subst ps. symmetry. apply length_map.
Qed.

Lemma filled_some {A} (vs : list A) : filled (map Some vs) = Some vs.
Proof.
  induction vs as [|v vs IH]; simpl; [reflexivity |]. rewrite IH. reflexivity.
Qed.

Lemma fold_failed {A} (tasks : list (promise A)) (order : list nat) (e : js_error) :
  fold_left (settle_task tasks) order (Failed e) = Failed e.
Proof. induction order as [|i order IH]; simpl; [reflexivity | exact IH]. Qed.

(** While every task resolves, the slots of the tasks that have settled hold
    their values and the other slots are untouched. *)
Lemma fold_collecting {A} (vs : list A) (order : list nat) :
  forall slots : list (option A),
  exists slots' : list (option A),
    fold_left (settle_task (map inr vs)) order (Collecting slots) = Collecting slots'
    /\ length slots' = length slots
    /\ forall i, i < length slots -> i < length vs ->
         slots' !! i = if decide (i ∈ order) then Some (vs !! i) else slots !! i.
Proof.
  induction order as [|j order IH]; intros slots; simpl.
  - exists slots. split; [reflexivity |]. split; [reflexivity |].
    intros i _ _. destruct (decide (i ∈ [])) as [Hin|_]; [|reflexivity].
    inversion Hin.
  - rewrite list_lookup_fmap.
    destruct (vs !! j) as [v|] eqn:Hj; simpl.
    + destruct (IH (<[j := Some v]> slots)) as (slots' & Hfold & Hlen & Hlook).
      exists slots'. split; [exact Hfold |].
      rewrite length_insert in Hlen. split; [exact Hlen |].
      intros i Hi Hv. rewrite Hlook by (rewrite ?length_insert; assumption).
      destruct (decide (i ∈ order)) as [Hin|Hnin].
      * rewrite decide_True by (right; exact Hin). reflexivity.
      * destruct (decide (i = j)) as [->|Hne].
        -- rewrite decide_True by left.
           rewrite list_lookup_insert_eq by exact Hi. rewrite Hj. reflexivity.
        -- rewrite list_lookup_insert_ne by congruence.
           rewrite decide_False; [reflexivity |].
           intros Hin. apply elem_of_cons in Hin as [?|?]; contradiction.
    + destruct (IH slots) as (slots' & Hfold & Hlen & Hlook).
      exists slots'. split; [exact Hfold |]. split; [exact Hlen |].
      intros i Hi Hv. rewrite Hlook by assumption.
      apply lookup_ge_None in Hj.
      destruct (decide (i ∈ order)) as [Hin|Hnin].
      * rewrite decide_True by (right; exact Hin). reflexivity.
      * rewrite decide_False; [reflexivity |].
        intros Hin. apply elem_of_cons in Hin as [->|?]; [lia | contradiction].
Qed.

(** When all tasks resolve, [Promise.all] resolves with their values in task
    order, whatever the order in which they settled. *)
Lemma promise_all_resolved {A} (vs : list A) (order : list nat) :
  settles_all order (length vs) ->
  promise_all (map inr vs) order = AllResolved vs.
Proof.
  intros Hall. unfold promise_all. rewrite length_map.
  destruct (fold_collecting vs order (replicate (length vs) None))
    as (slots' & -> & Hlen & Hlook).
  rewrite length_replicate in Hlen.
  assert (slots' = map Some vs) as ->.
  { apply list_eq. intros i. rewrite list_lookup_fmap.
    destruct (decide (i < length vs)) as [Hi|Hi].
    - rewrite Hlook by (rewrite ?length_replicate, ?length_map; exact Hi).
      rewrite decide_True by (apply Hall; exact Hi).
      destruct (vs !! i) eqn:Hv; [reflexivity |].
      apply lookup_ge_None in Hv. lia.
    - rewrite (proj2 (lookup_ge_None slots' i)) by lia.
      rewrite (proj2 (lookup_ge_None vs i)) by lia. reflexivity. }
  rewrite filled_some. reflexivity.
Qed.

(** As soon as a task that rejects is among those that settle, [Promise.all]
    rejects, with the error of one of its tasks. *)
Lemma fold_rejecting {A} (tasks : list (promise A)) (order : list nat) :
  forall (slots : list (option A)) (i : nat) (e : js_error),
  i ∈ order -> tasks !! i = Some (inl e) ->
  exists e', fold_left (settle_task tasks) order (Collecting slots) = Failed e'
             /\ inl e' ∈ tasks.
Proof.
  induction order as [|j order IH]; intros slots i e Hin Hi.
  - inversion Hin.
  - simpl. destruct (tasks !! j) as [[e'|v]|] eqn:Hj.
    + exists e'. rewrite fold_failed. split; [reflexivity |].
      apply list_elem_of_lookup. exists j. exact Hj.
    + apply elem_of_cons in Hin as [->|Hin]; [congruence |].
      exact (IH _ i e Hin Hi).
    + apply elem_of_cons in Hin as [->|Hin]; [congruence |].
      exact (IH _ i e Hin Hi).
Qed.

Lemma promise_all_rejected {A} (tasks : list (promise A)) (order : list nat)
    (i : nat) (e : js_error) :
  i ∈ order -> tasks !! i = Some (inl e) ->
  exists e', promise_all tasks order = AllRejected e' /\ inl e' ∈ tasks.
Proof.
  intros Hin Hi. unfold promise_all.
  destruct (fold_rejecting tasks order (replicate (length tasks) None) i e Hin Hi)
    as (e' & -> & He').
  exists e'. split; [reflexivity | exact He'].
Qed.

(** [Promise.all] against the in-order collection of the tasks' results. *)
Lemma promise_all_sequence {A} (tasks : list (promise A)) (order : list nat) :
  settles_all order (length tasks) ->
  match sequence tasks with
  | inr vs => promise_all tasks order = AllResolved vs
  | inl _ => exists e, promise_all tasks order = AllRejected e /\ inl e ∈ tasks
  end.
Proof.
  intros Hall. destruct (sequence tasks) as [e|vs] eqn:Hs.
  - apply sequence_rejected in Hs.
    apply list_elem_of_lookup in Hs as [i Hi].
    apply (promise_all_rejected tasks order i e); [|exact Hi].
    apply Hall. apply lookup_lt_Some in Hi. exact Hi.
  - apply sequence_resolved in Hs. subst tasks.
    apply promise_all_resolved. rewrite length_map in Hall. exact Hall.
Qed.

Lemma promise_all_nil {A} (order : list nat) :
  promise_all (@nil (promise A)) order = AllResolved [].
Proof.
  unfold promise_all. simpl.
  induction order as [|i order IH]; simpl; [reflexivity | exact IH].
Qed.

Lemma fold_failed_inv {A} (tasks : list (promise A)) (order : list nat) :
  forall (slots : list (option A)) (e : js_error),
  fold_left (settle_task tasks) order (Collecting slots) = Failed e -> inl e ∈ tasks.
Proof.
  induction order as [|j order IH]; intros slots e; simpl; [discriminate |].
  destruct (tasks !! j) as [[e'|v]|] eqn:Hj.
  - rewrite fold_failed. intros H. injection H as <-.
    apply list_elem_of_lookup. exists j. exact Hj.
  - apply IH.
  - apply IH.
Qed.

(** A rejection of [Promise.all] is the rejection of one of its tasks,
    whatever the completion order. *)
Lemma promise_all_rejected_inv {A} (tasks : list (promise A)) (order : list nat)
    (e : js_error) :
  promise_all tasks order = AllRejected e -> inl e ∈ tasks.
Proof.
  unfold promise_all.
  destruct (fold_left _ _ _) as [slots|e'] eqn:Hf.
  - destruct (filled slots); discriminate.
  - intros H. injection H as <-. exact (fold_failed_inv _ _ _ _ Hf).
Qed.

Lemma sequence_all_resolved {A B} (f : A -> promise B) (l : list A) :
  (forall a, a ∈ l -> exists b, f a = inr b) ->
  exists bs, sequence (map f l) = inr bs.
Proof.
  induction l as [|a l IH]; intros H; simpl.
  - exists []. reflexivity.
  - destruct (H a) as [b Hb]; [left |]. rewrite Hb. simpl.
    destruct IH as [bs Hbs]; [intros a' Ha'; apply H; right; exact Ha' |].
    rewrite Hbs. simpl. exists (b :: bs). reflexivity.
Qed.

Lemma started_lint (pre : list event) (inputs : list lint_input) :
  started pre = [] -> started (pre ++ map LintSource inputs) = inputs.
Proof.
  induction pre as [|ev pre IH]; simpl.
  - intros _. induction inputs as [|i inputs IH]; simpl; [reflexivity |].
    rewrite IH. reflexivity.
  - destruct ev; try exact IH. discriminate.
Qed.

(** ** The stages of [standalone] *)

Section Runs.
Context {postcss_result needless passthrough : Type}.
Variable w : World postcss_result needless passthrough.
Implicit Types (o : options passthrough) (order : list nat).

Lemma standalone_read_error o order e :
  readIgnoreText w o = inl e ->
  standalone w o order = ([ReadFile (absoluteIgnoreFilePath w o)], Threw e).
Proof. intros H. unfold standalone. rewrite H. reflexivity. Qed.

Lemma standalone_invalid o order ignoreText :
  readIgnoreText w o = inr ignoreText -> invalidInput o = true ->
  standalone w o order =
    ([ReadFile (absoluteIgnoreFilePath w o)], Threw (new_Error FILES_OR_CODE_MESSAGE)).
Proof. intros H1 H2. unfold standalone. rewrite H1, H2. reflexivity. Qed.

Lemma selectFormatter_value o (f : formatter_fn) :
  selectFormatter w o = Some f <-> formatterFunction w o = Some (Formatter f).
Proof.
  unfold selectFormatter. destruct (formatterFunction w o) as [[g|call]|].
  - split; intros H; injection H as <-; reflexivity.
  - split; discriminate.
  - split; discriminate.
Qed.

Lemma standalone_no_formatter o order ignoreText :
  readIgnoreText w o = inr ignoreText -> invalidInput o = false ->
  formatterFunction w o = None ->
  standalone w o order =
    ([ReadFile (absoluteIgnoreFilePath w o)], Rejected (new_Error FORMATTER_MESSAGE)).
Proof. intros H1 H2 H3. unfold standalone. rewrite H1, H2, H3. reflexivity. Qed.

Lemma standalone_code_with o order ignoreText value :
  readIgnoreText w o = inr ignoreText -> invalidInput o = false ->
  formatterFunction w o = Some value ->
  files_truthy (files o) = false ->
  standalone w o order =
    ([ReadFile (absoluteIgnoreFilePath w o); CreateStylelint; LintSource (codeInput w o)],
     settled (then_ (lintCode w o)
                (fun stylelintResult =>
                   callPrepareReturnValue w o value [stylelintResult]))).
Proof. intros H1 H2 H3 H4. unfold standalone. rewrite H1, H2, H3, H4. reflexivity. Qed.

Lemma standalone_glob_error_with o order ignoreText value e :
  readIgnoreText w o = inr ignoreText -> invalidInput o = false ->
  formatterFunction w o = Some value ->
  files_truthy (files o) = true ->
  globby (glob w) (glob_match w) (fileList o) = inl e ->
  standalone w o order =
    ([ReadFile (absoluteIgnoreFilePath w o); CreateStylelint; Globby (fileList o)],
     Rejected e).
Proof. intros H1 H2 H3 H4 H5. unfold standalone. rewrite H1, H2, H3, H4, H5. reflexivity. Qed.

Lemma standalone_files_with o order ignoreText value filePaths :
  readIgnoreText w o = inr ignoreText -> invalidInput o = false ->
  formatterFunction w o = Some value ->
  files_truthy (files o) = true ->
  globby (glob w) (glob_match w) (fileList o) = inr filePaths ->
  standalone w o order =
    ([ReadFile (absoluteIgnoreFilePath w o); CreateStylelint; Globby (fileList o)]
       ++ map (fun filePath => LintSource (fileInput w filePath)) (keptPaths w ignoreText filePaths),
     match lintFiles w o (keptPaths w ignoreText filePaths) order with
     | AllResolved stylelintResults =>
         settled (callPrepareReturnValue w o value stylelintResults)
     | AllRejected e => Rejected e
     | AllPending => Pending
     end).
Proof. intros H1 H2 H3 H4 H5. unfold standalone. rewrite H1, H2, H3, H4, H5. reflexivity. Qed.

Lemma standalone_code o order ignoreText formatterFunction :
  readIgnoreText w o = inr ignoreText -> invalidInput o = false ->
  selectFormatter w o = Some formatterFunction ->
  files_truthy (files o) = false ->
  standalone w o order =
    ([ReadFile (absoluteIgnoreFilePath w o); CreateStylelint; LintSource (codeInput w o)],
     settled (then_ (lintCode w o)
                (fun stylelintResult =>
                   resolve (prepareReturnValue w o formatterFunction [stylelintResult])))).
Proof.
  intros H1 H2 H3 H4. apply selectFormatter_value in H3.
  exact (standalone_code_with o order ignoreText _ H1 H2 H3 H4).
Qed.

Lemma standalone_glob_error o order ignoreText formatterFunction e :
  readIgnoreText w o = inr ignoreText -> invalidInput o = false ->
  selectFormatter w o = Some formatterFunction ->
  files_truthy (files o) = true ->
  globby (glob w) (glob_match w) (fileList o) = inl e ->
  standalone w o order =
    ([ReadFile (absoluteIgnoreFilePath w o); CreateStylelint; Globby (fileList o)],
     Rejected e).
Proof.
  intros H1 H2 H3 H4 H5. apply selectFormatter_value in H3.
  exact (standalone_glob_error_with o order ignoreText _ e H1 H2 H3 H4 H5).
Qed.

Lemma standalone_files o order ignoreText formatterFunction filePaths :
  readIgnoreText w o = inr ignoreText -> invalidInput o = false ->
  selectFormatter w o = Some formatterFunction ->
  files_truthy (files o) = true ->
  globby (glob w) (glob_match w) (fileList o) = inr filePaths ->
  standalone w o order =
    ([ReadFile (absoluteIgnoreFilePath w o); CreateStylelint; Globby (fileList o)]
       ++ map (fun filePath => LintSource (fileInput w filePath)) (keptPaths w ignoreText filePaths),
     match lintFiles w o (keptPaths w ignoreText filePaths) order with
     | AllResolved stylelintResults =>
         Resolved (prepareReturnValue w o formatterFunction stylelintResults)
     | AllRejected e => Rejected e
     | AllPending => Pending
     end).
Proof.
  intros H1 H2 H3 H4 H5. apply selectFormatter_value in H3.
  rewrite (standalone_files_with o order ignoreText _ filePaths H1 H2 H3 H4 H5).
  reflexivity.
Qed.

(** A report that [callPrepareReturnValue] returns is built by
    [prepareReturnValue], with the formatter or with what the call of the
    other value returned. *)
Lemma callPrepareReturnValue_resolved o value (stylelintResults : list stylelint_result)
    (r : Report.t needless) :
  callPrepareReturnValue w o value stylelintResults = resolve r ->
  exists f, r = prepareReturnValue w o f stylelintResults
    /\ match value with
       | Formatter g => f = g
       | Foreign call =>
           exists output, call stylelintResults = resolve output /\ f = (fun _ => output)
       end.
Proof.
  destruct value as [g|call]; simpl.
  - intros H. injection H as <-. exists g. split; reflexivity.
  - destruct (call stylelintResults) as [e|output]; simpl; [discriminate |].
    intros H. injection H as <-. exists (fun _ => output).
    split; [reflexivity |]. exists output. split; reflexivity.
Qed.

(** Where the results of a report come from: the lint of the inline source,
    or the batch of the kept paths. *)
Lemma standalone_resolved_from o order r :
  snd (standalone w o order) = Resolved r ->
  exists value stylelintResults,
    formatterFunction w o = Some value
    /\ callPrepareReturnValue w o value stylelintResults = resolve r
    /\ ((files_truthy (files o) = false
         /\ exists stylelintResult,
              lintCode w o = resolve stylelintResult
              /\ stylelintResults = [stylelintResult])
        \/ (files_truthy (files o) = true
            /\ exists ignoreText raw,
                 readIgnoreText w o = inr ignoreText
                 /\ globby (glob w) (glob_match w) (fileList o) = inr raw
                 /\ lintFiles w o (keptPaths w ignoreText raw) order
                    = AllResolved stylelintResults)).
Proof.
  unfold standalone.
  destruct (readIgnoreText w o) as [e|ignoreText]; [discriminate |].
  destruct (invalidInput o); [discriminate |].
  destruct (formatterFunction w o) as [value|]; [|discriminate].
  destruct (files_truthy (files o)); simpl.
  - destruct (globby _ _ _) as [e|raw]; [discriminate |]. simpl.
    destruct (lintFiles _ _ _ _) as [rs|e|] eqn:Hres; try discriminate.
    destruct (callPrepareReturnValue w o value rs) as [e|r'] eqn:Hcall; simpl;
      [discriminate |].
    intros H. injection H as <-. exists value, rs.
    split; [reflexivity |]. split; [exact Hcall |]. right.
    split; [reflexivity |]. exists ignoreText, raw. repeat split. exact Hres.
  - destruct (lintCode w o) as [e|res]; simpl; [discriminate |].
    destruct (callPrepareReturnValue w o value [res]) as [e|r'] eqn:Hcall; simpl;
      [discriminate |].
    intros H. injection H as <-. exists value, [res].
    split; [reflexivity |]. split; [exact Hcall |]. left.
    split; [reflexivity |]. exists res. split; reflexivity.
Qed.

(** A report is always built by [prepareReturnValue], with the selected
    formatter when the value selected is one. *)
Lemma standalone_resolved o order r :
  snd (standalone w o order) = Resolved r ->
  exists formatterFunction stylelintResults,
    r = prepareReturnValue w o formatterFunction stylelintResults
    /\ forall g, selectFormatter w o = Some g -> formatterFunction = g.
Proof.
  intros H. apply standalone_resolved_from in H as (value & rs & Hv & Hcall & _).
  apply callPrepareReturnValue_resolved in Hcall as (f & -> & Hf).
  exists f, rs. split; [reflexivity |].
  intros g Hg. apply selectFormatter_value in Hg. rewrite Hv in Hg.
  injection Hg as ->. exact Hf.
Qed.

(** The combinations of [files] and [code] named "both" and "neither" are
    rejected by the validation. *)
Lemma both_or_neither_invalid o :
  supplied_both o = true \/ supplied_neither o = true -> invalidInput o = true.
Proof.
  unfold supplied_both, supplied_neither, invalidInput, isValidCode.
  destruct (files_truthy (files o)), (truthy (code o)), (typeof_string (code o));
    simpl; intros [H|H]; try reflexivity; discriminate.
Qed.

(** The [try]/[catch] of the ignore file read, case by case. *)
Lemma readIgnoreText_cases o :
  match readFileSync w (absoluteIgnoreFilePath w o) with
  | inr ignoreText => readIgnoreText w o = inr ignoreText
  | inl readError =>
      if decide (err_code readError = Some FILE_NOT_FOUND_ERROR_CODE)
      then readIgnoreText w o = inr ""
      else readIgnoreText w o = inl readError
  end.
Proof.
  unfold readIgnoreText.
  destruct (readFileSync w (absoluteIgnoreFilePath w o)) as [e|t]; simpl; [|reflexivity].
  destruct (err_code e) as [c|] eqn:Hc.
  - destruct (String.eqb_spec c FILE_NOT_FOUND_ERROR_CODE) as [->|Hne];
      case_decide; simpl; try reflexivity; congruence.
  - case_decide; [discriminate | reflexivity].
Qed.

Lemma ignore_filter_no_rules (paths : list string) :
  ignore_filter (rule_matches w) [] paths = paths.
Proof.
  unfold ignore_filter. induction paths as [|p paths IH]; simpl; [reflexivity |].
  f_equal. exact IH.
Qed.

(** *** C1 *)

(** C1 (as amended).  When [files] and [code] are both supplied, or neither
    is, the only effect of the invocation is the read of the ignore file,
    which comes first: no engine is created, no glob is expanded, no lint
    operation is started.  If the read succeeds or the file is missing, the
    invocation throws the Configuration error; if the read fails otherwise,
    it throws the read error. *)
Theorem C1_invalid_input_fails_after_ignore_read o order :
  supplied_both o = true \/ supplied_neither o = true ->
  fst (standalone w o order) = [ReadFile (absoluteIgnoreFilePath w o)]
  /\ match readIgnoreText w o with
     | inr _ => snd (standalone w o order) = Threw (new_Error FILES_OR_CODE_MESSAGE)
     | inl readError => snd (standalone w o order) = Threw readError
     end.
Proof.
  intros H. apply both_or_neither_invalid in H.
  destruct (readIgnoreText w o) as [e|t] eqn:Hr.
  - rewrite (standalone_read_error o order e Hr). split; reflexivity.
  - rewrite (standalone_invalid o order t Hr H). split; reflexivity.
Qed.

(** *** C5 *)

(** C5.  When reading the ignore file fails because the file does not exist,
    the ignore text is empty, the matcher has no rule and its filter returns
    every path sequence unchanged; when the read fails for another reason,
    the invocation throws that error and its only effect is the read. *)
Theorem C5_missing_ignore_file_filters_nothing o readError :
  readFileSync w (absoluteIgnoreFilePath w o) = inl readError ->
  (err_code readError = Some FILE_NOT_FOUND_ERROR_CODE ->
     readIgnoreText w o = inr ""
     /\ ignorer "" = []
     /\ (forall paths, ignore_filter (rule_matches w) (ignorer "") paths = paths)
     /\ (forall filePaths,
           keptPaths w "" filePaths = map (fun p => path_relative w (cwd w) p) filePaths))
  /\ (err_code readError <> Some FILE_NOT_FOUND_ERROR_CODE ->
        forall order,
          standalone w o order = ([ReadFile (absoluteIgnoreFilePath w o)], Threw readError)
          /\ started (fst (standalone w o order)) = []).
Proof.
  intros Hread. pose proof (readIgnoreText_cases o) as Hc. rewrite Hread in Hc.
  split.
  - intros Hcode. rewrite decide_True in Hc by exact Hcode.
    split; [exact Hc |]. split; [reflexivity |].
    split.
    + intros paths. apply ignore_filter_no_rules.
    + intros filePaths. unfold keptPaths. apply ignore_filter_no_rules.
  - intros Hcode order. rewrite decide_False in Hc by exact Hcode.
    rewrite (standalone_read_error o order readError Hc). split; reflexivity.
Qed.

(** *** The fields of the report *)

Lemma prepare_errored o f (stylelintResults : list stylelint_result) :
  Report.errored (prepareReturnValue w o f stylelintResults)
  = existsb errored stylelintResults.
Proof. unfold prepareReturnValue. destruct (reportNeedlessDisables o); reflexivity. Qed.

Lemma prepare_output o f (stylelintResults : list stylelint_result) :
  Report.output (prepareReturnValue w o f stylelintResults) = f stylelintResults.
Proof. unfold prepareReturnValue. destruct (reportNeedlessDisables o); reflexivity. Qed.

Lemma prepare_results o f (stylelintResults : list stylelint_result) :
  Report.results (prepareReturnValue w o f stylelintResults) = stylelintResults.
Proof. unfold prepareReturnValue. destruct (reportNeedlessDisables o); reflexivity. Qed.

Lemma prepare_needlessDisables o f (stylelintResults : list stylelint_result) :
  Report.needlessDisables (prepareReturnValue w o f stylelintResults)
  = if reportNeedlessDisables o then Some (needlessDisables w stylelintResults) else None.
Proof. unfold prepareReturnValue. destruct (reportNeedlessDisables o); reflexivity. Qed.

(** The lookup is [undefined] exactly for a name that is none of the three
    built-in ones and that the registry object does not inherit. *)
Lemma formatters_undefined (name : string) :
  formatters w name = None
  <-> name <> "json" /\ name <> "string" /\ name <> "verbose"
      /\ formatters_inherited w name = None.
Proof.
  unfold formatters.
  destruct (String.eqb_spec name "json") as [->|H1];
    [split; [discriminate | intros (H & _); contradiction] |].
  destruct (String.eqb_spec name "string") as [->|H2];
    [split; [discriminate | intros (_ & H & _); contradiction] |].
  destruct (String.eqb_spec name "verbose") as [->|H3];
    [split; [discriminate | intros (_ & _ & H & _); contradiction] |].
  destruct (formatters_inherited w name) as [call|].
  - split; [discriminate | intros (_ & _ & _ & H); discriminate].
  - split; [intros _; repeat split; assumption | reflexivity].
Qed.

(** *** C8 *)

(** C8 (as amended).  A formatter given as a string is looked up by name in
    the registry object of the built-in formatters.  When the lookup finds
    nothing, that is for a name that is none of "json", "string", "verbose"
    and that the object does not inherit, the invocation never resolves and
    performs no lint work (no engine is created, no glob is expanded, no
    lint operation is started).  It fails with a Configuration error if the
    ignore file was read or is missing (the files/code error when [files]
    and [code] are wrongly combined, and otherwise the rejection of the
    returned promise with the formatter error), and with the read error if
    the ignore file cannot be read.  When [formatter] is neither a string
    nor a function, the JSON formatter renders the report. *)
Theorem C8_unknown_formatter_rejects_before_linting o order :
  (forall name, formatter o = FormatterString name ->
     formatterFunction w o = formatters w name
     /\ (name <> "json" -> name <> "string" -> name <> "verbose" ->
         formatters_inherited w name = None ->
         formatters w name = None
         /\ no_lint_work (fst (standalone w o order)) = true
         /\ started (fst (standalone w o order)) = []
         /\ (exists e, fails_with (snd (standalone w o order)) e)
         /\ match readIgnoreText w o with
            | inr _ =>
                exists e, fails_with (snd (standalone w o order)) e
                          /\ ConfigurationError e
            | inl readError => snd (standalone w o order) = Threw readError
            end
         /\ (forall ignoreText,
               readIgnoreText w o = inr ignoreText -> invalidInput o = false ->
               standalone w o order =
                 ([ReadFile (absoluteIgnoreFilePath w o)],
                  Rejected (new_Error FORMATTER_MESSAGE)))))
  /\ (formatter o = FormatterOther ->
      formatterFunction w o = Some (Formatter (formatters_json w))
      /\ selectFormatter w o = Some (formatters_json w)
      /\ forall r, snd (standalone w o order) = Resolved r ->
           Report.output r = formatters_json w (Report.results r)).
Proof.
  split.
  - intros name Hf.
    assert (Hsel : formatterFunction w o = formatters w name)
      by (unfold formatterFunction; rewrite Hf; reflexivity).
    split; [exact Hsel |]. intros H1 H2 H3 H4.
    assert (Hnone : formatters w name = None)
      by (apply formatters_undefined; repeat split; assumption).
    split; [exact Hnone |]. rewrite Hnone in Hsel.
    destruct (readIgnoreText w o) as [e|t] eqn:Hr.
    + rewrite (standalone_read_error o order e Hr). simpl.
      repeat split; try discriminate.
      exists e. left. reflexivity.
    + destruct (invalidInput o) eqn:Hi.
      * rewrite (standalone_invalid o order t Hr Hi). simpl.
        repeat split; try discriminate.
        -- eexists. left. reflexivity.
        -- eexists. split; [left; reflexivity | left; reflexivity].
      * rewrite (standalone_no_formatter o order t Hr Hi Hsel). simpl.
        repeat split.
        -- eexists. right. reflexivity.
        -- eexists. split; [right; reflexivity | right; reflexivity].
  - intros Hf.
    assert (Hval : formatterFunction w o = Some (Formatter (formatters_json w)))
      by (unfold formatterFunction; rewrite Hf; reflexivity).
    assert (Hsel : selectFormatter w o = Some (formatters_json w))
      by (apply selectFormatter_value; exact Hval).
    split; [exact Hval |]. split; [exact Hsel |]. intros r Hr.
    apply standalone_resolved in Hr as (f & rs & -> & Hg).
    rewrite (Hg _ Hsel), prepare_output, prepare_results. reflexivity.
Qed.

(** *** C10 *)

(** C10.  Inline source is present exactly when [code] is a string.  With no
    [files], the empty string passes the validation and is linted; with
    [files], the empty string still makes the validation fail; with no
    [files], a [code] that is not a string makes the validation fail as if
    [code] were absent.  A failed validation throws the Configuration error
    as soon as the ignore file has been read. *)
Theorem C10_code_presence_is_string_type o order :
  (forall ignoreText, readIgnoreText w o = inr ignoreText -> invalidInput o = true ->
     standalone w o order =
       ([ReadFile (absoluteIgnoreFilePath w o)], Threw (new_Error FILES_OR_CODE_MESSAGE)))
  /\ (files_truthy (files o) = false -> code o = JStr "" ->
      invalidInput o = false
      /\ forall ignoreText formatterFunction,
           readIgnoreText w o = inr ignoreText ->
           selectFormatter w o = Some formatterFunction ->
           started (fst (standalone w o order)) = [InCode (JStr "") (absoluteCodeFilename w o)]
           /\ snd (standalone w o order) =
                settled (then_ (lintCode w o)
                           (fun stylelintResult =>
                              resolve (prepareReturnValue w o formatterFunction
                                         [stylelintResult]))))
  /\ (files_truthy (files o) = true -> code o = JStr "" -> invalidInput o = true)
  /\ (files_truthy (files o) = false -> typeof_string (code o) = false ->
      invalidInput o = true).
Proof.
  split; [intros t Hr Hi; exact (standalone_invalid o order t Hr Hi) |].
  split; [|split].
  - intros Hfiles Hcode.
    assert (Hi : invalidInput o = false)
      by (unfold invalidInput, isValidCode; rewrite Hfiles, Hcode; reflexivity).
    split; [exact Hi |]. intros t f Hr Hsel.
    rewrite (standalone_code o order t f Hr Hi Hsel Hfiles). simpl.
    unfold codeInput. rewrite Hcode. split; reflexivity.
  - intros Hfiles Hcode. unfold invalidInput, isValidCode.
    rewrite Hfiles, Hcode. reflexivity.
  - intros Hfiles Hcode. unfold invalidInput, isValidCode.
    rewrite Hfiles, Hcode. reflexivity.
Qed.

(** *** C7 *)

(** C7.  In every report an invocation resolves to, [needlessDisables] is
    set if and only if [reportNeedlessDisables] was requested: it is then the
    analysis of the report's results, and otherwise the property is absent. *)
Theorem C7_needlessDisables_present_iff_requested o order r :
  snd (standalone w o order) = Resolved r ->
  (is_Some (Report.needlessDisables r) <-> reportNeedlessDisables o = true)
  /\ (reportNeedlessDisables o = true ->
      Report.needlessDisables r = Some (needlessDisables w (Report.results r)))
  /\ (reportNeedlessDisables o = false -> Report.needlessDisables r = None).
Proof.
  intros Hr. apply standalone_resolved in Hr as (f & rs & -> & _).
  rewrite prepare_needlessDisables, prepare_results.
  destruct (reportNeedlessDisables o).
  - split; [split; [reflexivity | intros _; eexists; reflexivity] |].
    split; [reflexivity | discriminate].
  - split; [split; [intros [x Hx]; discriminate | discriminate] |].
    split; [discriminate | reflexivity].
Qed.

(** *** C4 *)

(** C4.  For every batch of result records, the report built from it holds
    that batch as its results and has [errored] equal to the disjunction of
    the [errored] fields of the records of the batch.  Every report an
    invocation resolves to is built in this way from the records its lint
    operations produced: the one record of the inline source, or the batch
    of the kept paths.  In file mode, when no path is left after the glob
    expansion and the ignore filter, the invocation resolves to a report
    with no result and [errored = false], and no lint operation is
    started. *)
Theorem C4_report_errored_is_disjunction o order :
  (forall formatterFunction (batch : list stylelint_result),
     Report.results (prepareReturnValue w o formatterFunction batch) = batch
     /\ Report.errored (prepareReturnValue w o formatterFunction batch)
        = existsb errored batch
     /\ (Report.errored (prepareReturnValue w o formatterFunction batch) = true
         <-> exists result, result ∈ batch /\ errored result = true))
  /\ (forall r, snd (standalone w o order) = Resolved r ->
      Report.errored r = existsb errored (Report.results r)
      /\ (Report.errored r = true <->
          exists result, result ∈ Report.results r /\ errored result = true)
      /\ ((files_truthy (files o) = false
           /\ exists stylelintResult,
                lintCode w o = resolve stylelintResult
                /\ Report.results r = [stylelintResult])
          \/ (files_truthy (files o) = true
              /\ exists ignoreText raw,
                   readIgnoreText w o = inr ignoreText
                   /\ globby (glob w) (glob_match w) (fileList o) = inr raw
                   /\ lintFiles w o (keptPaths w ignoreText raw) order
                      = AllResolved (Report.results r))))
  /\ (forall ignoreText formatterFunction filePaths,
        readIgnoreText w o = inr ignoreText -> invalidInput o = false ->
        selectFormatter w o = Some formatterFunction ->
        files_truthy (files o) = true ->
        globby (glob w) (glob_match w) (fileList o) = inr filePaths ->
        keptPaths w ignoreText filePaths = [] ->
        started (fst (standalone w o order)) = []
        /\ exists r, snd (standalone w o order) = Resolved r
                     /\ Report.results r = [] /\ Report.errored r = false).
Proof.
  assert (Hany : forall batch : list stylelint_result,
            existsb errored batch = true
            <-> exists result, result ∈ batch /\ errored result = true).
  { intros batch. rewrite existsb_exists. split.
    - intros (x & Hx & He). exists x. split; [apply list_elem_of_In; exact Hx | exact He].
    - intros (x & Hx & He). exists x. split; [apply list_elem_of_In; exact Hx | exact He]. }
  split; [|split].
  - intros f batch. rewrite prepare_results, prepare_errored.
    split; [reflexivity |]. split; [reflexivity | apply Hany].
  - intros r Hr.
    apply standalone_resolved_from in Hr as (value & rs & _ & Hcall & Hfrom).
    apply callPrepareReturnValue_resolved in Hcall as (f & -> & _).
    rewrite prepare_errored, prepare_results.
    split; [reflexivity |]. split; [apply Hany | exact Hfrom].
  - intros t f filePaths Hr Hi Hsel Hfiles Hglob Hkept.
    rewrite (standalone_files o order t f filePaths Hr Hi Hsel Hfiles Hglob).
    rewrite Hkept. simpl. split; [reflexivity |].
    unfold lintFiles. simpl. rewrite promise_all_nil.
    eexists. split; [reflexivity |].
    rewrite prepare_results, prepare_errored. split; reflexivity.
Qed.

(** *** Linting one input *)

Lemma convert_syntax_error e :
  err_name e = CSS_SYNTAX_ERROR ->
  exists r, convertCssSyntaxErrorToResult e = resolve r /\ parse_failure_record e r.
Proof.
  intros Hn. unfold convertCssSyntaxErrorToResult.
  destruct (String.eqb_spec (err_name e) CSS_SYNTAX_ERROR) as [_|Hne];
    [simpl | contradiction].
  eexists. split; [reflexivity |]. unfold parse_failure_record; simpl.
  split; [reflexivity |]. split; [reflexivity |]. split; [reflexivity |].
  split; [eexists; repeat split |]. split.
  - intros f Hf Hne. rewrite Hf. simpl.
    destruct (String.eqb_spec f ""); [contradiction | reflexivity].
  - intros [Hf|Hf]; rewrite Hf; reflexivity.
Qed.

Lemma handleError_syntax_error e :
  err_name e = CSS_SYNTAX_ERROR ->
  exists r, handleError e = resolve r /\ parse_failure_record e r.
Proof.
  intros Hn. unfold handleError.
  rewrite (proj2 (String.eqb_eq _ _) Hn). apply convert_syntax_error. exact Hn.
Qed.

Lemma handleError_other e :
  err_name e <> CSS_SYNTAX_ERROR -> handleError e = reject e.
Proof.
  intros Hn. unfold handleError.
  destruct (String.eqb_spec (err_name e) CSS_SYNTAX_ERROR); [contradiction | reflexivity].
Qed.

(** What [catch(handleError)] lets through as a rejection is a failure of
    the attempt that is not a parse failure. *)
Lemma catch_handleError_rejected (p : promise stylelint_result) e :
  catch_ p handleError = inl e -> p = inl e /\ err_name e <> CSS_SYNTAX_ERROR.
Proof.
  destruct p as [e'|r]; simpl; [|discriminate].
  destruct (String.eqb_spec (err_name e') CSS_SYNTAX_ERROR) as [Hn|Hn].
  - destruct (handleError_syntax_error e' Hn) as (r & -> & _). discriminate.
  - rewrite (handleError_other e' Hn). intros H. injection H as <-.
    split; [reflexivity | exact Hn].
Qed.

Lemma catch_handleError_fatal (p : promise stylelint_result) e :
  p = inl e -> err_name e <> CSS_SYNTAX_ERROR -> catch_ p handleError = inl e.
Proof. intros -> Hn. simpl. apply handleError_other. exact Hn. Qed.

(** *** The batch *)

Lemma lintFiles_promise_all o (filePaths : list string) order :
  lintFiles w o filePaths order = promise_all (map (lintFile w o) filePaths) order.
Proof.
  unfold lintFiles. destruct filePaths as [|p ps]; simpl; [|reflexivity].
  reflexivity.
Qed.

Lemma lintFiles_sequence o (filePaths : list string) order :
  settles_all order (length filePaths) ->
  match sequence (map (lintFile w o) filePaths) with
  | inr results => lintFiles w o filePaths order = AllResolved results
  | inl _ =>
      exists e, lintFiles w o filePaths order = AllRejected e
                /\ inl e ∈ map (lintFile w o) filePaths
  end.
Proof.
  intros Hall. rewrite lintFiles_promise_all.
  apply promise_all_sequence. rewrite length_map. exact Hall.
Qed.

(** A batch that resolves holds, at each index, the result of linting the
    path at that index. *)
Lemma lintFiles_resolved o (filePaths : list string) order results :
  settles_all order (length filePaths) ->
  lintFiles w o filePaths order = AllResolved results ->
  map (lintFile w o) filePaths = map inr results.
Proof.
  intros Hall Hres. pose proof (lintFiles_sequence o filePaths order Hall) as Hs.
  destruct (sequence (map (lintFile w o) filePaths)) as [e|vs] eqn:Hseq.
  - destruct Hs as (e' & He' & _). rewrite He' in Hres. discriminate.
  - rewrite Hs in Hres. injection Hres as <-.
    apply sequence_resolved. exact Hseq.
Qed.

Lemma standalone_files_started_with o order ignoreText value filePaths :
  readIgnoreText w o = inr ignoreText -> invalidInput o = false ->
  formatterFunction w o = Some value ->
  files_truthy (files o) = true ->
  globby (glob w) (glob_match w) (fileList o) = inr filePaths ->
  started (fst (standalone w o order))
  = map (fileInput w) (keptPaths w ignoreText filePaths).
Proof.
  intros H1 H2 H3 H4 H5.
  rewrite (standalone_files_with o order ignoreText value filePaths H1 H2 H3 H4 H5).
  simpl. generalize (keptPaths w ignoreText filePaths). intros l.
  induction l as [|p l IH]; simpl; [reflexivity | rewrite IH; reflexivity].
Qed.

Lemma standalone_files_started o order ignoreText formatterFunction filePaths :
  readIgnoreText w o = inr ignoreText -> invalidInput o = false ->
  selectFormatter w o = Some formatterFunction ->
  files_truthy (files o) = true ->
  globby (glob w) (glob_match w) (fileList o) = inr filePaths ->
  started (fst (standalone w o order))
  = map (fileInput w) (keptPaths w ignoreText filePaths).
Proof.
  intros H1 H2 H3 H4 H5.
  rewrite (standalone_files o order ignoreText formatterFunction filePaths H1 H2 H3 H4 H5).
  simpl. generalize (keptPaths w ignoreText filePaths). intros l.
  induction l as [|p l IH]; simpl; [reflexivity | rewrite IH; reflexivity].
Qed.

(** *** C2 *)

(** C2.  A lint attempt that fails with an error named [CssSyntaxError] does
    not reject: [handleError] turns the failure into a result record with
    [errored = true] and exactly one warning (rule: the failure's type name;
    text: the reason followed by the type name in parentheses; line and
    column: the failure's; severity: "error"), whose source is the failure's
    file or ["<input css 1>"] when it has none.  This holds for the inline
    source and for each file.  A batch is therefore never rejected with a
    parse failure, and when every failure in it is a parse failure it
    resolves, with that record at the index of the failing input. *)
Theorem C2_parse_failure_becomes_result e :
  err_name e = CSS_SYNTAX_ERROR ->
  (exists r, handleError e = resolve r /\ parse_failure_record e r)
  /\ (forall o, codeAttempt w o = reject e ->
        exists r, lintCode w o = resolve r /\ parse_failure_record e r)
  /\ (forall o filePath, fileAttempt w o filePath = reject e ->
        exists r, lintFile w o filePath = resolve r /\ parse_failure_record e r)
  /\ (forall o filePaths order e',
        lintFiles w o filePaths order = AllRejected e' ->
        err_name e' <> CSS_SYNTAX_ERROR)
  /\ (forall o filePaths order i filePath,
        settles_all order (length filePaths) ->
        filePaths !! i = Some filePath ->
        fileAttempt w o filePath = reject e ->
        (forall q e', q ∈ filePaths -> fileAttempt w o q = reject e' ->
                      err_name e' = CSS_SYNTAX_ERROR) ->
        exists results r,
          lintFiles w o filePaths order = AllResolved results
          /\ length results = length filePaths
          /\ results !! i = Some r
          /\ parse_failure_record e r).
Proof.
  intros Hn. split; [exact (handleError_syntax_error e Hn) |].
  split; [|split; [|split]].
  - intros o Ha. unfold lintCode. rewrite Ha. simpl.
    exact (handleError_syntax_error e Hn).
  - intros o filePath Ha. unfold lintFile. rewrite Ha. simpl.
    exact (handleError_syntax_error e Hn).
  - intros o filePaths order e' Hrej.
    rewrite lintFiles_promise_all in Hrej.
    apply promise_all_rejected_inv in Hrej.
    apply list_elem_of_fmap in Hrej as (q & Hq & _).
    symmetry in Hq. apply catch_handleError_rejected in Hq as [_ Hne]. exact Hne.
  - intros o filePaths order i filePath Hall Hi Ha Hothers.
    destruct (sequence_all_resolved (lintFile w o) filePaths) as [results Hseq].
    { intros q Hq. unfold lintFile.
      destruct (fileAttempt w o q) as [e'|r] eqn:Hq'; simpl; [|eexists; reflexivity].
      destruct (handleError_syntax_error e' (Hothers q e' Hq Hq')) as (r & Hr & _).
      exists r. exact Hr. }
    pose proof (lintFiles_sequence o filePaths order Hall) as Hs.
    rewrite Hseq in Hs.
    pose proof (sequence_length _ _ Hseq) as Hlen. rewrite length_map in Hlen.
    apply sequence_resolved in Hseq.
    assert (Hlook : map (lintFile w o) filePaths !! i = Some (lintFile w o filePath))
      by (rewrite list_lookup_fmap, Hi; reflexivity).
    rewrite Hseq, list_lookup_fmap in Hlook.
    destruct (results !! i) as [r|] eqn:Hr; [|discriminate].
    simpl in Hlook. injection Hlook as Hlook.
    exists results, r. split; [exact Hs |]. split; [exact Hlen |].
    split; [exact Hr |].
    unfold lintFile in Hlook. rewrite Ha in Hlook. simpl in Hlook.
    destruct (handleError_syntax_error e Hn) as (r' & Hr' & Hrec).
    rewrite Hr' in Hlook. injection Hlook as ->. exact Hrec.
Qed.

(** *** C9 *)

(** C9.  Whatever the order in which the lint operations settle, a batch
    that resolves has one result per input and result [i] is the result of
    linting input [i]; every other completion order yields the same
    sequence, and the batch does resolve as soon as each input's lint
    resolves.  In file mode the results of the report are, index by index,
    those of the lint operations the invocation started. *)
Theorem C9_results_follow_input_order o (filePaths : list string) order :
  settles_all order (length filePaths) ->
  (forall results, lintFiles w o filePaths order = AllResolved results ->
     length results = length filePaths
     /\ (forall i filePath, filePaths !! i = Some filePath ->
           exists result, results !! i = Some result
                          /\ lintFile w o filePath = resolve result)
     /\ (forall order', settles_all order' (length filePaths) ->
           lintFiles w o filePaths order' = AllResolved results))
  /\ ((forall filePath, filePath ∈ filePaths ->
         exists result, lintFile w o filePath = resolve result) ->
      exists results, lintFiles w o filePaths order = AllResolved results)
  /\ (forall ignoreText formatterFunction raw r,
        readIgnoreText w o = inr ignoreText -> invalidInput o = false ->
        selectFormatter w o = Some formatterFunction ->
        files_truthy (files o) = true ->
        globby (glob w) (glob_match w) (fileList o) = inr raw ->
        filePaths = keptPaths w ignoreText raw ->
        snd (standalone w o order) = Resolved r ->
        length (Report.results r) = length (started (fst (standalone w o order)))
        /\ forall i filePath, filePaths !! i = Some filePath ->
             started (fst (standalone w o order)) !! i = Some (fileInput w filePath)
             /\ exists result, Report.results r !! i = Some result
                               /\ lintFile w o filePath = resolve result).
Proof.
  intros Hall.
  assert (Hcorr : forall results,
    lintFiles w o filePaths order = AllResolved results ->
    length results = length filePaths
    /\ forall i filePath, filePaths !! i = Some filePath ->
         exists result, results !! i = Some result
                        /\ lintFile w o filePath = resolve result).
  { intros results Hres.
    pose proof (lintFiles_resolved o filePaths order results Hall Hres) as Hmap.
    split.
    - apply (f_equal length) in Hmap. rewrite !length_map in Hmap. symmetry. exact Hmap.
    - intros i filePath Hi.
      assert (Hlook : map (lintFile w o) filePaths !! i = Some (lintFile w o filePath))
        by (rewrite list_lookup_fmap, Hi; reflexivity).
      rewrite Hmap, list_lookup_fmap in Hlook.
      destruct (results !! i) as [result|]; [|discriminate].
      simpl in Hlook. injection Hlook as Hlook.
      exists result. split; [reflexivity | symmetry; exact Hlook]. }
  split; [|split].
  - intros results Hres. destruct (Hcorr results Hres) as [Hlen Hidx].
    split; [exact Hlen |]. split; [exact Hidx |].
    intros order' Hall'.
    pose proof (lintFiles_resolved o filePaths order results Hall Hres) as Hmap.
    pose proof (lintFiles_sequence o filePaths order' Hall') as Hs.
    rewrite (proj2 (sequence_resolved _ _) Hmap) in Hs. exact Hs.
  - intros Hok. destruct (sequence_all_resolved (lintFile w o) filePaths Hok) as [results Hseq].
    pose proof (lintFiles_sequence o filePaths order Hall) as Hs.
    rewrite Hseq in Hs. exists results. exact Hs.
  - intros t f raw r Hr Hi Hsel Hfiles Hglob -> Hout.
    rewrite (standalone_files_started o order t f raw Hr Hi Hsel Hfiles Hglob).
    rewrite (standalone_files o order t f raw Hr Hi Hsel Hfiles Hglob) in Hout.
    simpl in Hout.
    destruct (lintFiles w o (keptPaths w t raw) order) as [results|e|] eqn:Hres;
      try discriminate.
    injection Hout as <-. rewrite prepare_results.
    destruct (Hcorr results eq_refl) as [Hlen Hidx].
    split; [rewrite length_map; exact Hlen |].
    intros i filePath Hp. split.
    + rewrite list_lookup_fmap, Hp. reflexivity.
    + exact (Hidx i filePath Hp).
Qed.

(** *** C3 *)

(** C3.  A lint attempt that fails with an error that is not named
    [CssSyntaxError] rejects the promise the invocation returned, as soon as
    that lint operation settles and whatever the other inputs do: no report
    is produced, and the rejection carries such an error raised by one of
    the inputs.  When all the lint operations an invocation started settle,
    the invocation ends in one of two ways: it resolves to a report with one
    result per lint operation started, or it fails with one error. *)
Theorem C3_fatal_failure_rejects_whole_invocation o order :
  (forall ignoreText formatterFunction raw i filePath e,
     readIgnoreText w o = inr ignoreText -> invalidInput o = false ->
     selectFormatter w o = Some formatterFunction ->
     files_truthy (files o) = true ->
     globby (glob w) (glob_match w) (fileList o) = inr raw ->
     keptPaths w ignoreText raw !! i = Some filePath ->
     fileAttempt w o filePath = reject e ->
     err_name e <> CSS_SYNTAX_ERROR ->
     i ∈ order ->
     exists e', snd (standalone w o order) = Rejected e'
                /\ err_name e' <> CSS_SYNTAX_ERROR
                /\ exists q, q ∈ keptPaths w ignoreText raw
                             /\ fileAttempt w o q = reject e')
  /\ (forall ignoreText formatterFunction e,
        readIgnoreText w o = inr ignoreText -> invalidInput o = false ->
        selectFormatter w o = Some formatterFunction ->
        files_truthy (files o) = false ->
        codeAttempt w o = reject e ->
        err_name e <> CSS_SYNTAX_ERROR ->
        snd (standalone w o order) = Rejected e)
  /\ (settles_all order (length (started (fst (standalone w o order)))) ->
      (exists r, snd (standalone w o order) = Resolved r
                 /\ length (Report.results r)
                    = length (started (fst (standalone w o order))))
      \/ (exists e, fails_with (snd (standalone w o order)) e)).
Proof.
  split; [|split].
  - intros t f raw i filePath e Hr Hi Hsel Hfiles Hglob Hp Ha Hne Hin.
    rewrite (standalone_files o order t f raw Hr Hi Hsel Hfiles Hglob). simpl.
    rewrite lintFiles_promise_all.
    destruct (promise_all_rejected (map (lintFile w o) (keptPaths w t raw)) order i e Hin)
      as (e' & -> & He').
    { rewrite list_lookup_fmap, Hp. simpl. f_equal.
      apply catch_handleError_fatal; assumption. }
    exists e'. split; [reflexivity |].
    apply list_elem_of_fmap in He' as (q & Hq & Hqin).
    symmetry in Hq. apply catch_handleError_rejected in Hq as [Hq Hne'].
    split; [exact Hne' |]. exists q. split; assumption.
  - intros t f e Hr Hi Hsel Hfiles Ha Hne.
    rewrite (standalone_code o order t f Hr Hi Hsel Hfiles). simpl.
    unfold lintCode. rewrite (catch_handleError_fatal _ e Ha Hne). reflexivity.
  - destruct (readIgnoreText w o) as [e|t] eqn:Hr.
    { intros _. right. exists e. left.
      rewrite (standalone_read_error o order e Hr). reflexivity. }
    destruct (invalidInput o) eqn:Hi.
    { intros _. right. eexists. left.
      rewrite (standalone_invalid o order t Hr Hi). reflexivity. }
    destruct (formatterFunction w o) as [value|] eqn:Hsel.
    2:{ intros _. right. eexists. right.
        rewrite (standalone_no_formatter o order t Hr Hi Hsel). reflexivity. }
    destruct (files_truthy (files o)) eqn:Hfiles.
    2:{ intros _. rewrite (standalone_code_with o order t value Hr Hi Hsel Hfiles). simpl.
        destruct (lintCode w o) as [e|res]; simpl.
        - right. exists e. right. reflexivity.
        - destruct (callPrepareReturnValue w o value [res]) as [e|r] eqn:Hcall; simpl.
          + right. exists e. right. reflexivity.
          + left. exists r. split; [reflexivity |].
            apply callPrepareReturnValue_resolved in Hcall as (f & -> & _).
            rewrite prepare_results. reflexivity. }
    destruct (globby (glob w) (glob_match w) (fileList o)) as [e|raw] eqn:Hglob.
    { intros _. right. exists e. right.
      rewrite (standalone_glob_error_with o order t value e Hr Hi Hsel Hfiles Hglob).
      reflexivity. }
    rewrite (standalone_files_started_with o order t value raw Hr Hi Hsel Hfiles Hglob).
    rewrite (standalone_files_with o order t value raw Hr Hi Hsel Hfiles Hglob). simpl.
    rewrite length_map. intros Hall.
    pose proof (lintFiles_sequence o (keptPaths w t raw) order Hall) as Hs.
    destruct (sequence (map (lintFile w o) (keptPaths w t raw))) as [e|results] eqn:Hseq.
    + destruct Hs as (e' & -> & _). right. exists e'. right. reflexivity.
    + rewrite Hs.
      destruct (callPrepareReturnValue w o value results) as [e|r] eqn:Hcall; simpl.
      * right. exists e. right. reflexivity.
      * left. exists r. split; [reflexivity |].
        apply callPrepareReturnValue_resolved in Hcall as (f & -> & _).
        rewrite prepare_results.
        pose proof (sequence_length _ _ Hseq) as Hlen. rewrite length_map in Hlen.
        exact Hlen.
Qed.

End Runs.

(** ** Negated patterns at the end of a pattern list *)










Section GlobbyFacts.
Variable glob : string -> promise (list string).
Variable glob_match : string -> string -> bool.




End GlobbyFacts.

(** ** C6 *)

Section DefaultIgnores.
Context {postcss_result needless passthrough : Type}.
Variable w : World postcss_result needless passthrough.
Implicit Types (o : options passthrough) (order : list nat).


End DefaultIgnores.

(** ** The statements at work on the small project *)

Lemma settles_allb_sound (order : list nat) (n : nat) :
  settles_allb order n = true -> settles_all order n.
Proof.
  unfold settles_allb, settles_all. rewrite forallb_forall. intros H i Hi.
  specialize (H i). rewrite existsb_exists in H.
  destruct H as (j & Hj & Heq).
  - apply in_seq. lia.
  - apply Nat.eqb_eq in Heq. subst j. apply list_elem_of_In. exact Hj.
Qed.

(** Both [files] and [code]: the ignore file is read before the call throws,
    and when that file cannot be read the error thrown is the read error. *)
Lemma C1_counterexample :
  supplied_both Demo.both = true
  /\ ~ no_io (fst (standalone Demo.ignore_b Demo.both []))
  /\ snd (standalone Demo.unreadable Demo.both []) = Threw (Demo.fsError "EACCES")
  /\ ~ ConfigurationError (Demo.fsError "EACCES").
Proof.
  split; [reflexivity |]. split; [|split].
  - unfold no_io. vm_compute. discriminate.
  - reflexivity.
  - intros [H|H]; vm_compute in H; discriminate.
Qed.

(** Both [files] and [code], next to an ignore file that lists [b.css]. *)
Lemma C1_invalid_input_fails_after_ignore_read_witness :
  fst (standalone Demo.ignore_b Demo.both []) = [ReadFile "/proj/.stylelintignore"]
  /\ snd (standalone Demo.ignore_b Demo.both []) = Threw (new_Error FILES_OR_CODE_MESSAGE).
Proof.
  exact (C1_invalid_input_fails_after_ignore_read Demo.ignore_b Demo.both []
           (or_introl eq_refl)).
Defined.

(** [bad.css] does not parse, [b.css] is clean and settles first. *)
Lemma C2_parse_failure_becomes_result_witness :
  exists results r,
    lintFiles Demo.no_ignore_file (Demo.opts (FilesArray ["bad.css"; "b.css"]) JUndefined)
      ["bad.css"; "b.css"] [1; 0] = AllResolved results
    /\ length results = 2
    /\ results !! 0 = Some r
    /\ parse_failure_record (Demo.syntaxError (Some "/proj/bad.css")) r.
Proof.
  refine (proj2 (proj2 (proj2 (proj2
    (C2_parse_failure_becomes_result Demo.no_ignore_file
       (Demo.syntaxError (Some "/proj/bad.css")) eq_refl))))
    (Demo.opts (FilesArray ["bad.css"; "b.css"]) JUndefined)
    ["bad.css"; "b.css"] [1; 0] 0 "bad.css" _ eq_refl eq_refl _).
  - apply settles_allb_sound. reflexivity.
  - intros q e' Hq Ha.
    apply elem_of_cons in Hq as [->|Hq]; [vm_compute in Ha; injection Ha as <-; reflexivity |].
    apply elem_of_cons in Hq as [->|Hq]; [vm_compute in Ha; discriminate |].
    inversion Hq.
Defined.

(** The engine fails on [crash.css]; [bad.css] never settles. *)
Lemma C3_fatal_failure_rejects_whole_invocation_witness :
  exists e',
    snd (standalone Demo.no_ignore_file
           (Demo.opts (FilesArray ["bad.css"; "crash.css"; "a.css"]) JUndefined) [2; 1])
    = Rejected e'
    /\ err_name e' <> CSS_SYNTAX_ERROR.
Proof.
  destruct (proj1 (C3_fatal_failure_rejects_whole_invocation Demo.no_ignore_file
                     (Demo.opts (FilesArray ["bad.css"; "crash.css"; "a.css"]) JUndefined)
                     [2; 1])
              "" (fun _ => "json")
              ["/proj/bad.css"; "/proj/crash.css"; "/proj/a.css"]
              1 "crash.css" Demo.typeError
              eq_refl eq_refl eq_refl eq_refl eq_refl eq_refl eq_refl)
    as (e' & He' & Hne & _).
  - vm_compute. discriminate.
  - right. left.
  - exists e'. split; assumption.
Defined.

(** A batch of two files, one of which does not parse; and a batch that the
    ignore file empties. *)
Lemma C4_report_errored_is_disjunction_witness :
  match snd (standalone Demo.no_ignore_file
               (Demo.opts (FilesArray ["bad.css"; "b.css"]) JUndefined) [1; 0]) with
  | Resolved r =>
      Report.errored r = true
      /\ lintFiles Demo.no_ignore_file
           (Demo.opts (FilesArray ["bad.css"; "b.css"]) JUndefined)
           ["bad.css"; "b.css"] [1; 0] = AllResolved (Report.results r)
  | _ => False
  end
  /\ started (fst (standalone Demo.ignore_b (Demo.opts (FilesString "b.css") JUndefined) []))
     = []
  /\ exists r,
       snd (standalone Demo.ignore_b (Demo.opts (FilesString "b.css") JUndefined) [])
       = Resolved r
       /\ Report.results r = [] /\ Report.errored r = false.
Proof.
  split.
  - destruct (snd (standalone Demo.no_ignore_file
                     (Demo.opts (FilesArray ["bad.css"; "b.css"]) JUndefined) [1; 0]))
      as [e|e|r|] eqn:H; try (vm_compute in H; discriminate).
    destruct (proj1 (proj2 (C4_report_errored_is_disjunction Demo.no_ignore_file
                              (Demo.opts (FilesArray ["bad.css"; "b.css"]) JUndefined)
                              [1; 0])) r H)
      as (Herr & _ & [[Hfiles _]|[_ (t & raw & Ht & Hraw & Hbatch)]]).
    + vm_compute in Hfiles. discriminate.
    + vm_compute in Ht. injection Ht as <-.
      vm_compute in Hraw. injection Hraw as <-.
      split; [|exact Hbatch].
      rewrite Herr. vm_compute in H. injection H as <-. reflexivity.
  - exact (proj2 (proj2 (C4_report_errored_is_disjunction Demo.ignore_b
                           (Demo.opts (FilesString "b.css") JUndefined) []))
             ("b.css" +:+ String LF "") (fun _ => "json") ["/proj/b.css"]
             eq_refl eq_refl eq_refl eq_refl eq_refl eq_refl).
Defined.

(** No ignore file in the project. *)
Lemma C5_missing_ignore_file_filters_nothing_witness :
  readIgnoreText Demo.no_ignore_file Demo.both = inr ""
  /\ ignore_filter String.eqb (ignorer "") ["a.css"; "b.css"] = ["a.css"; "b.css"].
Proof.
  destruct (proj1 (C5_missing_ignore_file_filters_nothing Demo.no_ignore_file Demo.both
                     (Demo.fsError "ENOENT") eq_refl) eq_refl)
    as (Hread & _ & Hfilter & _).
  split; [exact Hread | exact (Hfilter ["a.css"; "b.css"])].
Defined.


(** Inline source with the analysis requested: it counts the one result. *)
Lemma C7_needlessDisables_present_iff_requested_witness :
  match snd (standalone Demo.no_ignore_file Demo.with_needless []) with
  | Resolved r => Report.needlessDisables r = Some 1
  | _ => False
  end.
Proof.
  destruct (snd (standalone Demo.no_ignore_file Demo.with_needless [])) as [e|e|r|] eqn:H;
    try (vm_compute in H; discriminate).
  destruct (C7_needlessDisables_present_iff_requested Demo.no_ignore_file
              Demo.with_needless [] r H) as (_ & Hset & _).
  rewrite (Hset eq_refl).
  vm_compute in H. injection H as <-. reflexivity.
Defined.

(** A formatter name that is not in the registry: with an ignore file that
    cannot be read the error thrown is the read error, and with a name that
    the registry object inherits the engine is created and the source is
    linted before the promise is rejected with the error of the call. *)
Lemma C8_counterexample :
  formatter Demo.unknown_formatter = FormatterString "not-a-real-formatter"
  /\ snd (standalone Demo.unreadable Demo.unknown_formatter [])
     = Threw (Demo.fsError "EACCES")
  /\ ~ ConfigurationError (Demo.fsError "EACCES")
  /\ formatter Demo.inherited_formatter = FormatterString "__proto__"
  /\ no_lint_work (fst (standalone Demo.no_ignore_file Demo.inherited_formatter [])) = false
  /\ snd (standalone Demo.no_ignore_file Demo.inherited_formatter [])
     = Rejected Demo.typeError
  /\ ~ ConfigurationError Demo.typeError.
Proof.
  split; [reflexivity |]. split; [reflexivity |].
  split; [intros [H|H]; vm_compute in H; discriminate |].
  split; [reflexivity |]. split; [reflexivity |]. split; [reflexivity |].
  intros [H|H]; vm_compute in H; discriminate.
Qed.

(** A formatter name that the registry does not hold and does not inherit. *)
Lemma C8_unknown_formatter_rejects_before_linting_witness :
  standalone Demo.no_ignore_file Demo.unknown_formatter []
  = ([ReadFile "/proj/.stylelintignore"], Rejected (new_Error FORMATTER_MESSAGE)).
Proof.
  destruct (proj1 (C8_unknown_formatter_rejects_before_linting Demo.no_ignore_file
                     Demo.unknown_formatter [])
              "not-a-real-formatter" eq_refl) as [_ H].
  destruct H as (_ & _ & _ & _ & _ & H);
    [discriminate | discriminate | discriminate | reflexivity |].
  exact (H "" eq_refl eq_refl).
Defined.

(** Two files, the second settling first. *)
Lemma C9_results_follow_input_order_witness :
  match lintFiles Demo.no_ignore_file
          (Demo.opts (FilesArray ["a.css"; "bad.css"]) JUndefined)
          ["a.css"; "bad.css"] [1; 0] with
  | AllResolved results =>
      length results = 2
      /\ lintFiles Demo.no_ignore_file
            (Demo.opts (FilesArray ["a.css"; "bad.css"]) JUndefined)
            ["a.css"; "bad.css"] [0; 1] = AllResolved results
  | _ => False
  end.
Proof.
  destruct (lintFiles Demo.no_ignore_file
              (Demo.opts (FilesArray ["a.css"; "bad.css"]) JUndefined)
              ["a.css"; "bad.css"] [1; 0]) as [results|e|] eqn:Hres;
    try (vm_compute in Hres; discriminate).
  destruct (proj1 (C9_results_follow_input_order Demo.no_ignore_file
                     (Demo.opts (FilesArray ["a.css"; "bad.css"]) JUndefined)
                     ["a.css"; "bad.css"] [1; 0]
                     (settles_allb_sound [1; 0] 2 eq_refl))
              results Hres) as (Hlen & _ & Horder).
  split; [exact Hlen |].
  apply Horder. apply settles_allb_sound. reflexivity.
Defined.

(** The empty string as inline source. *)
Lemma C10_code_presence_is_string_type_witness :
  invalidInput (Demo.opts FilesUndefined (JStr "")) = false
  /\ started (fst (standalone Demo.no_ignore_file (Demo.opts FilesUndefined (JStr "")) []))
     = [InCode (JStr "") None].
Proof.
  destruct (proj1 (proj2 (C10_code_presence_is_string_type Demo.no_ignore_file
                            (Demo.opts FilesUndefined (JStr "")) []))
              eq_refl eq_refl) as [Hvalid Hrun].
  split; [exact Hvalid |].
  exact (proj1 (Hrun "" (fun _ => "json") eq_refl eq_refl)).
Defined.

(** ** Runs of the small project *)

(** Two files, one of them listed in the ignore file: one result. *)
Example run_ignored_file :
  standalone Demo.ignore_b (Demo.opts (FilesArray ["a.css"; "b.css"]) JUndefined) [0]
  = ([ReadFile "/proj/.stylelintignore"; CreateStylelint;
      Globby ["a.css"; "b.css"; "!**/node_modules/**"; "!**/bower_components/**"];
      LintSource (InFile "/proj/a.css")],
     Resolved
       {| Report.errored := false; Report.output := "json";
          Report.results :=
            [ {| source := "/proj/a.css"; deprecations := [];
                 invalidOptionWarnings := []; errored := false; warnings := [] |} ];
          Report.needlessDisables := None |}).
Proof. reflexivity. Qed.

(** Inline source that does not parse: one record, flagged, with the
    placeholder as its source. *)
Example run_inline_parse_failure :
  snd (standalone Demo.no_ignore_file (Demo.opts FilesUndefined (JStr "a {")) [])
  = Resolved
      {| Report.errored := true; Report.output := "json";
         Report.results :=
           [ {| source := "<input css 1>"; deprecations := [];
                invalidOptionWarnings := []; errored := true;
                warnings :=
                  [ {| line := JNum 1; column := JNum 1; rule := "CssSyntaxError";
                       severity := "error";
                       text := "Unclosed block (CssSyntaxError)" |} ] |} ];
         Report.needlessDisables := None |}.
Proof. reflexivity. Qed.

(** Both [files] and [code]: the ignore file is read, then the call throws. *)
Example run_both :
  standalone Demo.no_ignore_file Demo.both []
  = ([ReadFile "/proj/.stylelintignore"], Threw (new_Error FILES_OR_CODE_MESSAGE)).
Proof. reflexivity. Qed.

(** An engine failure on one file rejects the batch, whether that file
    settles first or last. *)
Example run_engine_failure :
  snd (standalone Demo.no_ignore_file
         (Demo.opts (FilesArray ["a.css"; "crash.css"]) JUndefined) [0; 1])
  = Rejected Demo.typeError
  /\ snd (standalone Demo.no_ignore_file
            (Demo.opts (FilesArray ["a.css"; "crash.css"]) JUndefined) [1; 0])
     = Rejected Demo.typeError.
Proof. split; reflexivity. Qed.

(** While a lint operation has not settled and none has failed, the promise
    is pending. *)
Example run_pending :
  snd (standalone Demo.no_ignore_file
         (Demo.opts (FilesArray ["a.css"; "b.css"]) JUndefined) [1])
  = Pending.
Proof. reflexivity. Qed.

(** The default globs exclude the dependency directory when they come last;
    placed first they would exclude nothing. *)
Example run_defaults_last :
  globby Demo.demo_glob Demo.demo_glob_match
    ["**/*.css"; "!**/node_modules/**"; "!**/bower_components/**"]
  = inr ["/proj/a.css"; "/proj/b.css"]
  /\ globby Demo.demo_glob Demo.demo_glob_match
       ["!**/node_modules/**"; "!**/bower_components/**"; "**/*.css"]
     = inr ["/proj/a.css"; "/proj/b.css"; "/proj/node_modules/dep/x.css"].
Proof. split; reflexivity. Qed.

(** A user negation keeps its effect next to the default globs. *)
Example run_user_negation :
  globby Demo.demo_glob Demo.demo_glob_match
    ["**/*.css"; "!b.css"; "!**/node_modules/**"; "!**/bower_components/**"]
  = inr ["/proj/a.css"].
Proof. reflexivity. Qed.

(** * Further properties *)

(** ** Splitting the ignore text into lines *)

Lemma append_cons (c : ascii) (s t : string) : String c s +:+ t = String c (s +:+ t).
Proof. reflexivity. Qed.

Lemma append_empty_l (t : string) : "" +:+ t = t.
Proof. reflexivity. Qed.

Lemma append_empty_r (s : string) : s +:+ "" = s.
Proof.
  induction s as [|c s IH]; [reflexivity |]. rewrite append_cons, IH. reflexivity.
Qed.

Lemma append_assoc (s1 s2 s3 : string) : (s1 +:+ s2) +:+ s3 = s1 +:+ (s2 +:+ s3).
Proof.
  induction s1 as [|c s1 IH]; [reflexivity |]. rewrite !append_cons, IH. reflexivity.
Qed.

(** A character that is neither a line feed nor a carriage return joins the
    piece being read. *)
Lemma split_from_plain (cur : string) (c : ascii) (rest : string) :
  Ascii.eqb c LF = false -> Ascii.eqb c CR = false ->
  split_from cur (String c rest) = split_from (cur +:+ String c "") rest.
Proof.
  intros Hlf Hcr. simpl. rewrite Hlf, Hcr. destruct rest; reflexivity.
Qed.

(** What has been read so far is a prefix of the first piece. *)
Lemma split_from_cur (s : string) :
  forall cur,
    split_from cur s
    = match split_from "" s with
      | [] => [cur]
      | piece :: pieces => (cur +:+ piece) :: pieces
      end.
Proof.
  induction s as [|c rest IH]; intros cur.
  - simpl. rewrite append_empty_r. reflexivity.
  - simpl. destruct (Ascii.eqb c LF).
    + rewrite append_empty_r. reflexivity.
    + destruct rest as [|c' rest'].
      * simpl. rewrite append_empty_l. reflexivity.
      * destruct (Ascii.eqb c CR && Ascii.eqb c' LF).
        -- rewrite append_empty_r. reflexivity.
        -- rewrite (IH (cur +:+ String c "")), (IH ("" +:+ String c "")).
           destruct (split_from "" (String c' rest')) as [|piece pieces].
           ++ reflexivity.
           ++ rewrite append_empty_l, append_assoc. reflexivity.
Qed.

Lemma split_from_nonempty (s : string) : forall cur, split_from cur s <> [].
Proof.
  intros cur. rewrite split_from_cur. destruct (split_from "" s); discriminate.
Qed.

Lemma count_char_append (c : ascii) (s1 s2 : string) :
  count_char c (s1 +:+ s2) = count_char c s1 + count_char c s2.
Proof.
  induction s1 as [|c' s1 IH]; [reflexivity |].
  rewrite append_cons. simpl. rewrite IH. lia.
Qed.

Lemma join_lines_cons (piece : string) (pieces : list string) :
  pieces <> [] ->
  join_lines (piece :: pieces) = piece +:+ String LF (join_lines pieces).
Proof. destruct pieces; [contradiction | reflexivity]. Qed.

Lemma join_lines_prefix (cur piece : string) (pieces : list string) :
  join_lines ((cur +:+ piece) :: pieces) = cur +:+ join_lines (piece :: pieces).
Proof.
  destruct pieces as [|q qs]; [reflexivity |].
  rewrite !join_lines_cons by discriminate. rewrite append_assoc. reflexivity.
Qed.

Lemma has_char_cons (c c' : ascii) (rest : string) :
  has_char c (String c' rest) = false ->
  Ascii.eqb c' c = false /\ has_char c rest = false.
Proof.
  unfold has_char. simpl. destruct (Ascii.eqb c' c); simpl.
  - discriminate.
  - intros H. split; [reflexivity | exact H].
Qed.

(** X1.  A text written with carriage return, line feed line endings splits
    into the same lines as the text written with line feeds alone. *)
Theorem split_lines_crlf (s : string) :
  has_char CR s = false -> split_lines (crlf s) = split_lines s.
Proof.
  unfold split_lines. generalize "" as cur.
  induction s as [|c rest IH]; intros cur Hcr; [reflexivity |].
  apply has_char_cons in Hcr as [Hc Hrest].
  simpl crlf. destruct (Ascii.eqb c LF) eqn:Hlf.
  - simpl. rewrite Hlf. rewrite (IH "" Hrest). reflexivity.
  - rewrite !split_from_plain by assumption. apply IH. exact Hrest.
Qed.

(** X2.  Splitting loses nothing but the line ends: for a text without
    carriage returns, joining the lines with line feeds gives the text
    back. *)
Theorem join_split_lines (s : string) :
  has_char CR s = false -> join_lines (split_lines s) = s.
Proof.
  unfold split_lines. induction s as [|c rest IH]; intros Hcr; [reflexivity |].
  apply has_char_cons in Hcr as [Hc Hrest].
  destruct (Ascii.eqb c LF) eqn:Hlf.
  - simpl split_from. rewrite Hlf.
    rewrite join_lines_cons by apply split_from_nonempty.
    rewrite (IH Hrest). apply Ascii.eqb_eq in Hlf. subst c. reflexivity.
  - rewrite split_from_plain by assumption. rewrite split_from_cur.
    pose proof (split_from_nonempty rest "") as Hne.
    destruct (split_from "" rest) as [|piece pieces] eqn:Hs; [contradiction |].
    rewrite join_lines_prefix, (IH Hrest). reflexivity.
Qed.

(** X3.  No line holds a line feed, and a text without carriage returns has
    one line more than it has line feeds: in particular a text that ends in
    a line feed has an empty last line, and the empty text has one empty
    line. *)
Theorem split_lines_pieces (s : string) :
  (forall piece, piece ∈ split_lines s -> has_char LF piece = false)
  /\ (has_char CR s = false -> length (split_lines s) = S (count_char LF s)).
Proof.
  unfold split_lines. split.
  - assert (H : forall cur, has_char LF cur = false ->
                forall piece, piece ∈ split_from cur s -> has_char LF piece = false).
    { induction s as [|c rest IH]; intros cur Hcur piece Hin.
      - simpl in Hin. apply list_elem_of_singleton in Hin. subst. exact Hcur.
      - simpl in Hin. destruct (Ascii.eqb c LF) eqn:Hlf.
        + apply elem_of_cons in Hin as [->|Hin]; [exact Hcur |].
          exact (IH "" eq_refl piece Hin).
        + assert (Hcur' : has_char LF (cur +:+ String c "") = false).
          { unfold has_char in *. rewrite count_char_append. simpl. rewrite Hlf.
            apply negb_false_iff, Nat.eqb_eq in Hcur. rewrite Hcur. reflexivity. }
          destruct rest as [|c' rest'].
          * exact (IH _ Hcur' piece Hin).
          * destruct (Ascii.eqb c CR && Ascii.eqb c' LF) eqn:Hcrlf.
            -- apply elem_of_cons in Hin as [->|Hin]; [exact Hcur |].
               apply andb_prop in Hcrlf as [_ Hlf'].
               apply (IH "" eq_refl piece). simpl. rewrite Hlf'. right. exact Hin.
            -- exact (IH _ Hcur' piece Hin). }
    exact (H "" eq_refl).
  - generalize "" as cur. induction s as [|c rest IH]; intros cur Hcr; [reflexivity |].
    apply has_char_cons in Hcr as [Hc Hrest].
    destruct (Ascii.eqb c LF) eqn:Hlf.
    + simpl. rewrite Hlf. simpl. rewrite (IH "" Hrest). reflexivity.
    + rewrite split_from_plain by assumption. simpl count_char. rewrite Hlf.
      apply IH. exact Hrest.
Qed.

(** ** [Promise.all], once more *)

Lemma filled_inv {A} (slots : list (option A)) (vs : list A) :
  filled slots = Some vs -> slots = map Some vs.
Proof.
  revert vs. induction slots as [|[v|] slots IH]; intros vs; simpl.
  - intros H. injection H as <-. reflexivity.
  - destruct (filled slots) as [vs'|]; [|discriminate].
    intros H. injection H as <-. simpl. f_equal. apply IH. reflexivity.
  - discriminate.
Qed.

(** A slot is only ever filled with the value of its own task, when that
    task settles. *)
Lemma fold_collecting_inv {A} (tasks : list (promise A)) (order : list nat) :
  forall slots slots' : list (option A),
  fold_left (settle_task tasks) order (Collecting slots) = Collecting slots' ->
  length slots' = length slots
  /\ forall i v, slots' !! i = Some (Some v) ->
       slots !! i = Some (Some v) \/ (i ∈ order /\ tasks !! i = Some (inr v)).
Proof.
  induction order as [|j order IH]; intros slots slots'; simpl.
  - intros H. injection H as <-. split; [reflexivity |]. intros i v Hi. left. exact Hi.
  - destruct (tasks !! j) as [[e|v0]|] eqn:Hj.
    + rewrite fold_failed. discriminate.
    + intros H. apply IH in H as [Hlen Hslots].
      rewrite length_insert in Hlen. split; [exact Hlen |].
      intros i v Hi. destruct (Hslots i v Hi) as [Hins|[Hin Ht]].
      * apply list_lookup_insert_Some in Hins as [(-> & Hv & _)|[_ Hold]].
        -- injection Hv as ->. right. split; [left | exact Hj].
        -- left. exact Hold.
      * right. split; [right; exact Hin | exact Ht].
    + intros H. apply IH in H as [Hlen Hslots]. split; [exact Hlen |].
      intros i v Hi. destruct (Hslots i v Hi) as [Hold|[Hin Ht]].
      * left. exact Hold.
      * right. split; [right; exact Hin | exact Ht].
Qed.

Lemma promise_all_resolved_inv {A} (tasks : list (promise A)) (order : list nat)
    (vs : list A) :
  promise_all tasks order = AllResolved vs ->
  tasks = map inr vs /\ settles_all order (length tasks).
Proof.
  unfold promise_all.
  destruct (fold_left _ _ _) as [slots'|e] eqn:Hfold; [|discriminate].
  destruct (filled slots') as [vs'|] eqn:Hfilled; [|discriminate].
  intros H. injection H as ->.
  apply filled_inv in Hfilled. subst slots'.
  apply fold_collecting_inv in Hfold as [Hlen Hslots].
  rewrite length_map, length_replicate in Hlen.
  assert (Hi : forall i v, vs !! i = Some v -> i ∈ order /\ tasks !! i = Some (inr v)).
  { intros i v Hv.
    assert (Hslot : map Some vs !! i = Some (Some v))
      by (rewrite list_lookup_fmap, Hv; reflexivity).
    destruct (Hslots i v Hslot) as [Hnone|H]; [|exact H].
    apply lookup_replicate in Hnone as [Hnone _]. discriminate. }
  split.
  - apply list_eq. intros i. rewrite list_lookup_fmap.
    destruct (vs !! i) as [v|] eqn:Hv; simpl.
    + exact (proj2 (Hi i v Hv)).
    + apply lookup_ge_None. apply lookup_ge_None in Hv. lia.
  - intros i Hlt. rewrite <- Hlen in Hlt.
    destruct (vs !! i) as [v|] eqn:Hv.
    + exact (proj1 (Hi i v Hv)).
    + apply lookup_ge_None in Hv. lia.
Qed.

Lemma fold_no_rejection {A} (tasks : list (promise A)) (order : list nat) :
  (forall j, j ∈ order -> forall e, tasks !! j <> Some (inl e)) ->
  forall slots, exists slots',
    fold_left (settle_task tasks) order (Collecting slots) = Collecting slots'.
Proof.
  induction order as [|j order IH]; intros Hok slots; simpl.
  - exists slots. reflexivity.
  - destruct (tasks !! j) as [[e|v]|] eqn:Hj.
    + exfalso. apply (Hok j (list_elem_of_here _ _) e). exact Hj.
    + apply IH. intros i Hi. apply Hok. right. exact Hi.
    + apply IH. intros i Hi. apply Hok. right. exact Hi.
Qed.

Lemma promise_all_first_rejected {A} (tasks : list (promise A))
    (before after : list nat) (i : nat) (e : js_error) :
  (forall j, j ∈ before -> forall e', tasks !! j <> Some (inl e')) ->
  tasks !! i = Some (inl e) ->
  promise_all tasks (before ++ i :: after) = AllRejected e.
Proof.
  intros Hok Hi. unfold promise_all. rewrite fold_left_app.
  destruct (fold_no_rejection tasks before Hok (replicate (length tasks) None))
    as [slots' ->].
  simpl. rewrite Hi, fold_failed. reflexivity.
Qed.

(** ** The batch and the invocation, case by case *)

Section MoreRuns.
Context {postcss_result needless passthrough : Type}.
Variable w : World postcss_result needless passthrough.
Implicit Types (o : options passthrough) (order : list nat).

(** The six ways through [standalone]. *)
Lemma standalone_cases o order :
  (exists e, readIgnoreText w o = inl e
     /\ standalone w o order = ([ReadFile (absoluteIgnoreFilePath w o)], Threw e))
  \/ (exists t, readIgnoreText w o = inr t /\ invalidInput o = true
        /\ standalone w o order
           = ([ReadFile (absoluteIgnoreFilePath w o)],
              Threw (new_Error FILES_OR_CODE_MESSAGE)))
  \/ (exists t, readIgnoreText w o = inr t /\ invalidInput o = false
        /\ formatterFunction w o = None
        /\ standalone w o order
           = ([ReadFile (absoluteIgnoreFilePath w o)],
              Rejected (new_Error FORMATTER_MESSAGE)))
  \/ (exists t value, readIgnoreText w o = inr t /\ invalidInput o = false
        /\ formatterFunction w o = Some value /\ files_truthy (files o) = false
        /\ standalone w o order
           = ([ReadFile (absoluteIgnoreFilePath w o); CreateStylelint;
               LintSource (codeInput w o)],
              settled (then_ (lintCode w o)
                         (fun stylelintResult =>
                            callPrepareReturnValue w o value [stylelintResult]))))
  \/ (exists t value e, readIgnoreText w o = inr t /\ invalidInput o = false
        /\ formatterFunction w o = Some value /\ files_truthy (files o) = true
        /\ globby (glob w) (glob_match w) (fileList o) = inl e
        /\ standalone w o order
           = ([ReadFile (absoluteIgnoreFilePath w o); CreateStylelint;
               Globby (fileList o)], Rejected e))
  \/ (exists t value raw, readIgnoreText w o = inr t /\ invalidInput o = false
        /\ formatterFunction w o = Some value /\ files_truthy (files o) = true
        /\ globby (glob w) (glob_match w) (fileList o) = inr raw
        /\ standalone w o order
           = ([ReadFile (absoluteIgnoreFilePath w o); CreateStylelint;
               Globby (fileList o)]
                ++ map (fun filePath => LintSource (fileInput w filePath))
                     (keptPaths w t raw),
              match lintFiles w o (keptPaths w t raw) order with
              | AllResolved stylelintResults =>
                  settled (callPrepareReturnValue w o value stylelintResults)
              | AllRejected e => Rejected e
              | AllPending => Pending
              end)).
Proof.
  destruct (readIgnoreText w o) as [e|t] eqn:Hr.
  { left. exists e. split; [reflexivity |]. exact (standalone_read_error w o order e Hr). }
  right. destruct (invalidInput o) eqn:Hi.
  { left. exists t. repeat split. exact (standalone_invalid w o order t Hr Hi). }
  right. destruct (formatterFunction w o) as [value|] eqn:Hsel.
  2:{ left. exists t. repeat split. exact (standalone_no_formatter w o order t Hr Hi Hsel). }
  right. destruct (files_truthy (files o)) eqn:Hfiles.
  2:{ left. exists t, value. repeat split.
      exact (standalone_code_with w o order t value Hr Hi Hsel Hfiles). }
  right. destruct (globby (glob w) (glob_match w) (fileList o)) as [e|raw] eqn:Hglob.
  - left. exists t, value, e. repeat split.
    exact (standalone_glob_error_with w o order t value e Hr Hi Hsel Hfiles Hglob).
  - right. exists t, value, raw. repeat split.
    exact (standalone_files_with w o order t value raw Hr Hi Hsel Hfiles Hglob).
Qed.

Lemma lintFile_of_attempt o (filePath : string) (r : stylelint_result) :
  fileAttempt w o filePath = resolve r -> lintFile w o filePath = resolve r.
Proof. intros H. unfold lintFile. rewrite H. reflexivity. Qed.

Lemma lookup_map_inr {A B} (f : A -> promise B) (l : list A) (vs : list B) i a :
  map f l = map inr vs -> l !! i = Some a ->
  exists v, vs !! i = Some v /\ f a = inr v.
Proof.
  intros Hmap Ha.
  assert (Hlook : map f l !! i = Some (f a)) by (rewrite list_lookup_fmap, Ha; reflexivity).
  rewrite Hmap, list_lookup_fmap in Hlook.
  destruct (vs !! i) as [v|]; [|discriminate].
  simpl in Hlook. injection Hlook as Hlook. exists v. split; [reflexivity | symmetry; exact Hlook].
Qed.

(** X4.  A batch resolves exactly when every lint operation has settled and
    each one resolved (with the engine's result or with the record of a
    parse failure); its value is then those results in the order of the
    paths.  No result sequence is produced while an operation is
    outstanding. *)
Theorem batch_resolves_iff o (filePaths : list string) order
    (results : list stylelint_result) :
  lintFiles w o filePaths order = AllResolved results
  <-> map (lintFile w o) filePaths = map inr results
      /\ settles_all order (length filePaths).
Proof.
  rewrite lintFiles_promise_all. split.
  - intros H. apply promise_all_resolved_inv in H as [Hmap Hall].
    rewrite length_map in Hall. split; assumption.
  - intros [Hmap Hall]. rewrite Hmap. apply promise_all_resolved.
    apply (f_equal length) in Hmap. rewrite !length_map in Hmap.
    rewrite <- Hmap. exact Hall.
Qed.

(** X5.  A batch is rejected with the failure of the first lint operation
    to settle with a failure that is not a parse failure, whatever the
    operations that settle later do. *)
Theorem batch_first_fatal_failure_wins o (filePaths : list string)
    (before after : list nat) (i : nat) (filePath : string) (e : js_error) :
  (forall j q e', j ∈ before -> filePaths !! j = Some q ->
                  fileAttempt w o q = reject e' -> err_name e' = CSS_SYNTAX_ERROR) ->
  filePaths !! i = Some filePath ->
  fileAttempt w o filePath = reject e ->
  err_name e <> CSS_SYNTAX_ERROR ->
  lintFiles w o filePaths (before ++ i :: after) = AllRejected e.
Proof.
  intros Hbefore Hi Ha Hne. rewrite lintFiles_promise_all.
  apply promise_all_first_rejected.
  - intros j Hj e' Hrej. rewrite list_lookup_fmap in Hrej.
    destruct (filePaths !! j) as [q|] eqn:Hq; [|discriminate].
    simpl in Hrej. injection Hrej as Hrej.
    apply catch_handleError_rejected in Hrej as [Hq' Hne'].
    apply Hne'. exact (Hbefore j q e' Hj Hq Hq').
  - rewrite list_lookup_fmap, Hi. simpl. f_equal.
    apply catch_handleError_fatal; assumption.
Qed.

(** X6.  In a batch that resolves, the result the engine produced for an
    input stands unchanged at the index of that input, whatever happened to
    the other inputs. *)
Theorem batch_keeps_engine_results o (filePaths : list string) order
    (results : list stylelint_result) (j : nat) (filePath : string)
    (r : stylelint_result) :
  lintFiles w o filePaths order = AllResolved results ->
  filePaths !! j = Some filePath ->
  fileAttempt w o filePath = resolve r ->
  results !! j = Some r.
Proof.
  intros Hres Hj Ha. rewrite lintFiles_promise_all in Hres.
  apply promise_all_resolved_inv in Hres as [Hmap _].
  destruct (lookup_map_inr _ _ _ j filePath Hmap Hj) as (v & Hv & Hlint).
  rewrite (lintFile_of_attempt o filePath r Ha) in Hlint.
  injection Hlint as ->. exact Hv.
Qed.

(** X7.  Whenever an invocation resolves although the lint attempt on one of
    its inputs failed, the report is flagged [errored]. *)
Theorem failed_attempt_flags_report o order (r : Report.t needless) :
  snd (standalone w o order) = Resolved r ->
  (files_truthy (files o) = false ->
   forall e, codeAttempt w o = reject e -> Report.errored r = true)
  /\ (files_truthy (files o) = true ->
      forall ignoreText raw filePath e,
        readIgnoreText w o = inr ignoreText ->
        globby (glob w) (glob_match w) (fileList o) = inr raw ->
        filePath ∈ keptPaths w ignoreText raw ->
        fileAttempt w o filePath = reject e ->
        Report.errored r = true).
Proof.
  intros Hout.
  assert (Hflag : forall e res, handleError e = resolve res -> errored res = true).
  { intros e res Hh. unfold handleError in Hh.
    destruct (String.eqb_spec (err_name e) CSS_SYNTAX_ERROR) as [Hn|Hn]; [|discriminate].
    destruct (convert_syntax_error e Hn) as (res' & Hc & Hrec).
    rewrite Hc in Hh. injection Hh as <-. exact (proj1 Hrec). }
  apply standalone_resolved_from in Hout as (value & results & _ & Hcall & Hfrom).
  apply callPrepareReturnValue_resolved in Hcall as (f & -> & _).
  rewrite prepare_errored.
  destruct Hfrom as [[Hf (res & Hl & ->)]|[Hf (t & raw & Hr & Hg & Hres)]].
  - split; [|rewrite Hf; discriminate].
    intros _ e Ha. unfold lintCode in Hl. rewrite Ha in Hl. simpl in Hl.
    simpl. rewrite (Hflag e res Hl). reflexivity.
  - split; [rewrite Hf; discriminate |].
    intros _ t' raw' filePath e Hr' Hg' Hin Ha.
    rewrite Hr in Hr'. injection Hr' as <-. rewrite Hg in Hg'. injection Hg' as <-.
    rewrite lintFiles_promise_all in Hres.
    apply promise_all_resolved_inv in Hres as [Hmap _].
    apply list_elem_of_lookup in Hin as [i Hi].
    destruct (lookup_map_inr _ _ _ i filePath Hmap Hi) as (v & Hv & Hlint).
    unfold lintFile in Hlint. rewrite Ha in Hlint. simpl in Hlint.
    apply existsb_exists. exists v. split.
    + apply list_elem_of_In, list_elem_of_lookup. exists i. exact Hv.
    + exact (Hflag e v Hlint).
Qed.

(** X8.  The effects of an invocation do not depend on the order in which
    the lint operations settle nor on how they end: in file mode the lint
    operation of every kept path is started, in the order of the paths, also
    when the batch is rejected or still pending. *)
Theorem effects_do_not_depend_on_completion o order order' :
  fst (standalone w o order) = fst (standalone w o order')
  /\ forall ignoreText raw,
       readIgnoreText w o = inr ignoreText -> invalidInput o = false ->
       selectFormatter w o <> None -> files_truthy (files o) = true ->
       globby (glob w) (glob_match w) (fileList o) = inr raw ->
       started (fst (standalone w o order))
       = map (fileInput w) (keptPaths w ignoreText raw).
Proof.
  split.
  - unfold standalone.
    destruct (readIgnoreText w o); [reflexivity |].
    destruct (invalidInput o); [reflexivity |].
    destruct (formatterFunction w o); [|reflexivity].
    destruct (negb (files_truthy (files o))); [reflexivity |].
    destruct (globby _ _ _); reflexivity.
  - intros t raw Hr Hi Hsel Hfiles Hglob.
    destruct (selectFormatter w o) as [f|] eqn:Hf; [|contradiction].
    exact (standalone_files_started w o order t f raw Hr Hi Hf Hfiles Hglob).
Qed.

(** X9.  The effects come in a fixed order.  The ignore file is read first
    and is the only file the function reads itself; the engine is created at
    most once, after that read and before any glob expansion or lint; inline
    mode lints the one inline input and expands no glob; file mode expands
    the pattern list once and then lints files only. *)
Theorem effects_follow_fixed_order o order :
  fst (standalone w o order) = [ReadFile (absoluteIgnoreFilePath w o)]
  \/ (files_truthy (files o) = false
      /\ fst (standalone w o order)
         = [ReadFile (absoluteIgnoreFilePath w o); CreateStylelint;
            LintSource (codeInput w o)])
  \/ (files_truthy (files o) = true
      /\ exists filePaths,
           fst (standalone w o order)
           = [ReadFile (absoluteIgnoreFilePath w o); CreateStylelint;
              Globby (fileList o)]
               ++ map (fun filePath => LintSource (InFile (absoluteFilepath w filePath)))
                    filePaths).
Proof.
  destruct (standalone_cases o order)
    as [(e & _ & H)|[(t & _ & _ & H)|[(t & _ & _ & _ & H)|[(t & f & _ & _ & _ & Hf & H)
       |[(t & f & e & _ & _ & _ & Hf & _ & H)|(t & f & raw & _ & _ & _ & Hf & _ & H)]]]]];
    rewrite H; simpl.
  - left. reflexivity.
  - left. reflexivity.
  - left. reflexivity.
  - right. left. split; [exact Hf | reflexivity].
  - right. right. split; [exact Hf |]. exists []. reflexivity.
  - right. right. split; [exact Hf |]. exists (keptPaths w t raw). reflexivity.
Qed.

(** X10.  Once the ignore file is read and a formatter is selected, the
    inline source is linted exactly when [files] is falsy and [code] is a
    string, and the globs are expanded exactly when [files] is truthy and
    [code] is falsy and not a string: next to [files], a [code] of [null],
    [false] or [0] is accepted and left unused, any other [code] is an
    error. *)
Theorem mode_selection o order ignoreText formatterFunction :
  readIgnoreText w o = inr ignoreText ->
  selectFormatter w o = Some formatterFunction ->
  (LintSource (codeInput w o) ∈ fst (standalone w o order)
   <-> files_truthy (files o) = false /\ typeof_string (code o) = true)
  /\ (Globby (fileList o) ∈ fst (standalone w o order)
      <-> files_truthy (files o) = true /\ truthy (code o) = false
          /\ typeof_string (code o) = false).
Proof.
  intros Hr Hsel. apply selectFormatter_value in Hsel.
  assert (Hnot_code : forall l : list string,
            ~ LintSource (codeInput w o)
              ∈ map (fun filePath => LintSource (fileInput w filePath)) l).
  { intros l Hin. apply list_elem_of_fmap in Hin as (q & Hq & _). discriminate. }
  assert (Hnot_glob : forall l : list string,
            ~ Globby (fileList o)
              ∈ map (fun filePath => LintSource (fileInput w filePath)) l).
  { intros l Hin. apply list_elem_of_fmap in Hin as (q & Hq & _). discriminate. }
  destruct (standalone_cases o order)
    as [(e & He & H)|[(t & _ & Hi & H)|[(t & _ & _ & Hn & H)|[(t & f & _ & Hi & _ & Hf & H)
       |[(t & f & e & _ & Hi & _ & Hf & _ & H)|(t & f & raw & _ & Hi & _ & Hf & _ & H)]]]]];
    try congruence; rewrite H; simpl;
    unfold invalidInput, isValidCode in Hi.
  - split; split.
    + intros Hin. apply list_elem_of_singleton in Hin. discriminate.
    + intros [Hfiles Hc]. rewrite Hfiles, Hc in Hi. discriminate.
    + intros Hin. apply list_elem_of_singleton in Hin. discriminate.
    + intros (Hfiles & Ht & Hc). rewrite Hfiles, Ht, Hc in Hi. discriminate.
  - rewrite Hf in Hi. simpl in Hi. split; split.
    + intros _. destruct (typeof_string (code o)) eqn:Hc; [|discriminate].
      split; [exact Hf | reflexivity].
    + intros _. right. right. left.
    + intros Hin. repeat (apply elem_of_cons in Hin as [Hin|Hin]; [discriminate |]).
      inversion Hin.
    + intros [Hcontra _]. congruence.
  - rewrite Hf in Hi. simpl in Hi. apply orb_false_elim in Hi as [Ht Hc].
    split; split.
    + intros Hin. repeat (apply elem_of_cons in Hin as [Hin|Hin]; [discriminate |]).
      inversion Hin.
    + intros [Hcontra _]. congruence.
    + intros _. repeat split; assumption.
    + intros _. right. right. left.
  - rewrite Hf in Hi. simpl in Hi. apply orb_false_elim in Hi as [Ht Hc].
    split; split.
    + intros Hin. repeat (apply elem_of_cons in Hin as [Hin|Hin]; [discriminate |]).
      exfalso. exact (Hnot_code _ Hin).
    + intros [Hcontra _]. congruence.
    + intros _. repeat split; assumption.
    + intros _. right. right. left.
Qed.

(** X11.  An inline invocation that resolves reports exactly one result, the
    one of linting the inline source, and the report is flagged exactly when
    that result is. *)
Theorem inline_report_has_one_result o order (r : Report.t needless) :
  files_truthy (files o) = false ->
  snd (standalone w o order) = Resolved r ->
  exists stylelintResult,
    lintCode w o = resolve stylelintResult
    /\ Report.results r = [stylelintResult]
    /\ Report.errored r = errored stylelintResult.
Proof.
  intros Hfiles Hout.
  apply standalone_resolved_from in Hout as (value & results & _ & Hcall & Hfrom).
  apply callPrepareReturnValue_resolved in Hcall as (f & -> & _).
  destruct Hfrom as [[_ (res & Hl & ->)]|[Hf _]]; [|congruence].
  exists res. split; [exact Hl |].
  rewrite prepare_results, prepare_errored. simpl.
  split; [reflexivity | apply orb_false_r].
Qed.

(** X12.  The [output] of every report is the selected formatter applied to
    the results of that same report: the caller's function when [formatter]
    is a function, the built-in formatter of that name when it is "json",
    "string" or "verbose".  When the name selects a value that the registry
    object inherits, the output is what the call of that value returned for
    those results. *)
Theorem output_is_formatted_results o order (r : Report.t needless) :
  snd (standalone w o order) = Resolved r ->
  exists value, formatterFunction w o = Some value
    /\ match value with
       | Formatter f => Report.output r = f (Report.results r)
       | Foreign call => call (Report.results r) = resolve (Report.output r)
       end
    /\ (forall f, selectFormatter w o = Some f -> Report.output r = f (Report.results r))
    /\ (forall g, formatter o = FormatterFunction g -> value = Formatter g)
    /\ (formatter o = FormatterString "json" -> value = Formatter (formatters_json w))
    /\ (formatter o = FormatterString "string" -> value = Formatter (formatters_string w))
    /\ (formatter o = FormatterString "verbose"
        -> value = Formatter (formatters_verbose w)).
Proof.
  intros Hout.
  apply standalone_resolved_from in Hout as (value & rs & Hv & Hcall & _).
  apply callPrepareReturnValue_resolved in Hcall as (f & -> & Hf).
  exists value. split; [exact Hv |].
  rewrite prepare_output, prepare_results. split; [|split].
  - destruct value as [g|call].
    + rewrite Hf. reflexivity.
    + destruct Hf as (output & Hcall & ->). exact Hcall.
  - intros g Hg. apply selectFormatter_value in Hg. rewrite Hv in Hg.
    injection Hg as ->. rewrite Hf. reflexivity.
  - unfold formatterFunction in Hv.
    repeat split; intros; match goal with H : formatter o = _ |- _ => rewrite H in Hv end;
      simpl in Hv; injection Hv as <-; reflexivity.
Qed.

(** X13.  The formatter takes no part in the linting: with another
    formatter the invocation performs the same effects and ends the same
    way, the report differing in its [output] alone. *)
Theorem formatter_only_renders o order (fm : formatter_option) (f f' : formatter_fn) :
  selectFormatter w o = Some f ->
  selectFormatter w (with_formatter fm o) = Some f' ->
  standalone w (with_formatter fm o) order
  = (fst (standalone w o order), rendered_by f' (snd (standalone w o order))).
Proof.
  intros Hsel Hsel'. apply selectFormatter_value in Hsel, Hsel'.
  unfold standalone. rewrite Hsel, Hsel'.
  change (readIgnoreText w (with_formatter fm o)) with (readIgnoreText w o).
  change (invalidInput (with_formatter fm o)) with (invalidInput o).
  change (absoluteIgnoreFilePath w (with_formatter fm o)) with (absoluteIgnoreFilePath w o).
  change (files (with_formatter fm o)) with (files o).
  change (fileList (with_formatter fm o)) with (fileList o).
  change (codeInput w (with_formatter fm o)) with (codeInput w o).
  change (lintCode w (with_formatter fm o)) with (lintCode w o).
  destruct (readIgnoreText w o) as [e|t]; [reflexivity |].
  destruct (invalidInput o); [reflexivity |].
  destruct (negb (files_truthy (files o))).
  - simpl. destruct (lintCode w o) as [e|res]; simpl; [reflexivity |].
    unfold prepareReturnValue. simpl.
    destruct (reportNeedlessDisables o); reflexivity.
  - destruct (globby (glob w) (glob_match w) (fileList o)) as [e|raw]; [reflexivity |].
    simpl. f_equal.
    change (lintFiles w (with_formatter fm o)) with (lintFiles w o).
    destruct (lintFiles w o (keptPaths w t raw) order) as [results|e|]; try reflexivity.
    simpl. unfold prepareReturnValue. simpl.
    destruct (reportNeedlessDisables o); reflexivity.
Qed.

(** X14.  A single pattern given as a string behaves as the array that
    holds that pattern alone, except for the empty string, which counts as
    no [files] at all: with a string as [code] the inline source is then
    linted, and without one the Configuration error is thrown. *)
Theorem files_as_string o order :
  (forall pattern, pattern <> "" ->
     standalone w (with_files (FilesString pattern) o) order
     = standalone w (with_files (FilesArray [pattern]) o) order)
  /\ standalone w (with_files (FilesString "") o) order
     = standalone w (with_files FilesUndefined o) order.
Proof.
  split; [|reflexivity].
  intros pattern Hne. unfold standalone, invalidInput, fileList. simpl.
  destruct (String.eqb_spec pattern "") as [->|_]; [contradiction |].
  reflexivity.
Qed.

(** X15.  In inline mode the contents of the ignore file play no part: as
    long as the file can be read, or is missing, the invocation is the same
    whatever the file holds. *)
Theorem inline_ignores_the_ignore_text o order (read : string -> promise string)
    (ignoreText ignoreText' : string) :
  files_truthy (files o) = false ->
  readIgnoreText w o = inr ignoreText ->
  readIgnoreText (with_readFileSync read w) o = inr ignoreText' ->
  standalone (with_readFileSync read w) o order = standalone w o order.
Proof.
  intros Hfiles Hr Hr'. unfold standalone. rewrite Hr, Hr', Hfiles. reflexivity.
Qed.

End MoreRuns.

(** ** The two error handlers *)

(** X18.  [convertCssSyntaxErrorToResult] guards itself: called with an
    error that is not a parse failure it throws that error back unchanged,
    so it agrees with [handleError] on every error.  Neither ever swallows
    an error of another kind, and every record they return is flagged and
    holds exactly one warning, of severity "error". *)
Theorem handlers_agree (e : js_error) :
  handleError e = convertCssSyntaxErrorToResult e
  /\ (err_name e <> CSS_SYNTAX_ERROR -> convertCssSyntaxErrorToResult e = reject e)
  /\ (forall e', handleError e = reject e' -> e' = e /\ err_name e <> CSS_SYNTAX_ERROR)
  /\ (forall r, handleError e = resolve r ->
        err_name e = CSS_SYNTAX_ERROR /\ errored r = true
        /\ exists wn, warnings r = [wn] /\ severity wn = "error").
Proof.
  unfold handleError, convertCssSyntaxErrorToResult.
  destruct (String.eqb_spec (err_name e) CSS_SYNTAX_ERROR) as [Hn|Hn]; simpl.
  - split; [reflexivity |]. split; [contradiction |]. split; [discriminate |].
    intros r Hr. injection Hr as <-. simpl.
    split; [exact Hn |]. split; [reflexivity |]. eexists. split; reflexivity.
  - split; [reflexivity |]. split; [reflexivity |]. split.
    + intros e' H. injection H as <-. split; [reflexivity | exact Hn].
    + discriminate.
Qed.

(** ** The files that are linted *)

Lemma filter_sublist {A} (f : A -> bool) (l : list A) : List.filter f l `sublist_of` l.
Proof.
  induction l as [|a l IH]; simpl; [constructor |].
  destruct (f a); [apply sublist_skip | apply sublist_cons]; exact IH.
Qed.

Section LintedFiles.
Context {postcss_result needless passthrough : Type}.
Variable w : World postcss_result needless passthrough.
Implicit Types (o : options passthrough) (order : list nat).

Lemma ignore_fold_without_negation (rm : string -> string -> bool)
    (rules : list string) (path : string) :
  (forall rule, rule ∈ rules -> is_negated rule = true -> rm rule path = false) ->
  forall matched,
    fold_left (ignore_step rm path) rules matched
    = matched || existsb (fun rule => negb (is_negated rule) && rm rule path) rules.
Proof.
  induction rules as [|rule rules IH]; intros Hneg matched; simpl.
  - symmetry. apply orb_false_r.
  - assert (Hstep : ignore_step rm path matched rule
                    = matched || (negb (is_negated rule) && rm rule path)).
    { unfold ignore_step. destruct (is_negated rule) eqn:Hn.
      - rewrite (Hneg rule (list_elem_of_here _ _) Hn). destruct matched; reflexivity.
      - destruct matched; reflexivity. }
    rewrite Hstep, IH.
    + rewrite orb_assoc. reflexivity.
    + intros r Hr. apply Hneg. right. exact Hr.
Qed.

(** Without a negated rule that matches the path, the path is ignored
    exactly when a rule matches it. *)
Lemma ignore_test_without_negation (rm : string -> string -> bool)
    (rules : list string) (path : string) :
  (forall rule, rule ∈ rules -> is_negated rule = true -> rm rule path = false) ->
  ignore_test rm rules path
  = existsb (fun rule => negb (is_negated rule) && rm rule path) rules.
Proof.
  intros Hneg. unfold ignore_test.
  rewrite (ignore_fold_without_negation rm rules path Hneg). reflexivity.
Qed.

(** X19.  In file mode the files linted are paths of the glob expansion,
    taken relative to the working directory, in the order of the expansion,
    and none of them is ignored: a linted path that a line of the ignore
    file matches is also matched by a negated line of that file.  (Blank
    lines and comment lines are no rules; the matching of one line is that
    of the [ignore] package as modelled above.) *)
Theorem ignored_files_are_not_linted o order ignoreText raw :
  readIgnoreText w o = inr ignoreText -> invalidInput o = false ->
  selectFormatter w o <> None -> files_truthy (files o) = true ->
  globby (glob w) (glob_match w) (fileList o) = inr raw ->
  exists filePaths,
    started (fst (standalone w o order)) = map (fileInput w) filePaths
    /\ filePaths `sublist_of` map (fun p => path_relative w (cwd w) p) raw
    /\ forall filePath,
         filePath ∈ filePaths ->
         ignore_test (rule_matches w) (ignorer ignoreText) filePath = false
         /\ forall rule,
              rule ∈ split_lines ignoreText ->
              is_blank rule = false -> is_comment rule = false ->
              is_negated rule = false ->
              rule_matches w rule filePath = true ->
              exists negated,
                negated ∈ split_lines ignoreText
                /\ is_negated negated = true
                /\ rule_matches w negated filePath = true.
Proof.
  intros Hr Hi Hsel Hfiles Hglob.
  destruct (selectFormatter w o) as [f|] eqn:Hf; [|contradiction].
  exists (keptPaths w ignoreText raw).
  split; [exact (standalone_files_started w o order ignoreText f raw Hr Hi Hf Hfiles Hglob) |].
  split; [apply filter_sublist |].
  intros filePath Hin.
  unfold keptPaths, ignore_filter in Hin.
  apply list_elem_of_In, filter_In in Hin as [_ Hkeep].
  apply negb_true_iff in Hkeep. split; [exact Hkeep |].
  intros rule Hrule Hblank Hcomment Hneg Hmatch.
  assert (Hadded : In rule (ignorer ignoreText)).
  { unfold ignorer, ignore_add. apply filter_In. split.
    - apply list_elem_of_In. exact Hrule.
    - rewrite Hblank, Hcomment. reflexivity. }
  destruct (existsb (fun r => is_negated r && rule_matches w r filePath)
              (ignorer ignoreText)) eqn:Hex.
  - apply existsb_exists in Hex as (negated & Hnin & Hn).
    apply andb_prop in Hn as [Hn Hm].
    exists negated. split; [|split; assumption].
    unfold ignorer, ignore_add in Hnin. apply filter_In in Hnin as [Hnin _].
    apply list_elem_of_In. exact Hnin.
  - exfalso.
    rewrite ignore_test_without_negation in Hkeep.
    + assert (Htrue : existsb (fun r => negb (is_negated r) && rule_matches w r filePath)
                        (ignorer ignoreText) = true).
      { apply existsb_exists. exists rule. split; [exact Hadded |].
        rewrite Hneg, Hmatch. reflexivity. }
      congruence.
    + intros r Hrin Hrn.
      destruct (rule_matches w r filePath) eqn:Hrm; [|reflexivity].
      assert (Htrue : existsb (fun r => is_negated r && rule_matches w r filePath)
                        (ignorer ignoreText) = true).
      { apply existsb_exists. exists r. split; [apply list_elem_of_In; exact Hrin |].
        rewrite Hrn, Hrm. reflexivity. }
      congruence.
Qed.

(** X20.  An empty array as [files] is not an error: [files] is then
    truthy, the expansion has no path, no lint operation is started and the
    invocation resolves to a report without results and not flagged.  (The
    expansion is the one of the [globby] model above, in which a list
    without positive pattern expands to nothing.) *)
Theorem empty_files_array o order ignoreText formatterFunction :
  files o = FilesArray [] ->
  readIgnoreText w o = inr ignoreText -> invalidInput o = false ->
  selectFormatter w o = Some formatterFunction ->
  started (fst (standalone w o order)) = []
  /\ exists r, snd (standalone w o order) = Resolved r
               /\ Report.results r = [] /\ Report.errored r = false.
Proof.
  intros Hfiles Hr Hi Hsel.
  assert (Htruthy : files_truthy (files o) = true) by (rewrite Hfiles; reflexivity).
  assert (Hglob : globby (glob w) (glob_match w) (fileList o) = inr []).
  { unfold fileList. rewrite Hfiles. destruct (disableDefaultIgnores o); reflexivity. }
  rewrite (standalone_files w o order ignoreText formatterFunction [] Hr Hi Hsel Htruthy Hglob).
  simpl. split; [reflexivity |].
  unfold lintFiles. simpl. rewrite promise_all_nil.
  eexists. split; [reflexivity |].
  rewrite prepare_results, prepare_errored. split; reflexivity.
Qed.

End LintedFiles.

(** ** The further properties at work on the small project *)

Lemma split_lines_crlf_witness :
  split_lines (crlf Inputs.two_lines) = ["a.css"; "b.css"; ""].
Proof. exact (split_lines_crlf Inputs.two_lines eq_refl). Defined.

Lemma join_split_lines_witness :
  join_lines (split_lines Inputs.two_lines) = Inputs.two_lines.
Proof. exact (join_split_lines Inputs.two_lines eq_refl). Defined.

Lemma split_lines_pieces_witness :
  length (split_lines Inputs.two_lines) = 3.
Proof. exact (proj2 (split_lines_pieces Inputs.two_lines) eq_refl). Defined.

Lemma batch_first_fatal_failure_wins_witness :
  lintFiles Demo.no_ignore_file (Demo.opts (FilesArray ["a.css"; "crash.css"]) JUndefined)
    ["a.css"; "crash.css"] ([0] ++ 1 :: [])
  = AllRejected Demo.typeError.
Proof.
  refine (batch_first_fatal_failure_wins Demo.no_ignore_file
            (Demo.opts (FilesArray ["a.css"; "crash.css"]) JUndefined)
            ["a.css"; "crash.css"] [0] [] 1 "crash.css" Demo.typeError
            _ eq_refl eq_refl _).
  - intros j q e' Hj Hq Ha. apply list_elem_of_singleton in Hj. subst j.
    injection Hq as <-. vm_compute in Ha. discriminate.
  - vm_compute. discriminate.
Defined.

Lemma batch_keeps_engine_results_witness :
  match lintFiles Demo.no_ignore_file
          (Demo.opts (FilesArray ["bad.css"; "b.css"]) JUndefined)
          ["bad.css"; "b.css"] [1; 0] with
  | AllResolved results => results !! 1 = Some (Inputs.clean "/proj/b.css")
  | _ => False
  end.
Proof.
  destruct (lintFiles Demo.no_ignore_file
              (Demo.opts (FilesArray ["bad.css"; "b.css"]) JUndefined)
              ["bad.css"; "b.css"] [1; 0]) as [results|e|] eqn:Hres;
    try (vm_compute in Hres; discriminate).
  exact (batch_keeps_engine_results Demo.no_ignore_file _ _ _ results 1 "b.css"
           (Inputs.clean "/proj/b.css") Hres eq_refl eq_refl).
Defined.

Lemma failed_attempt_flags_report_witness :
  match snd (standalone Demo.no_ignore_file (Demo.opts FilesUndefined (JStr "a {")) []) with
  | Resolved r => Report.errored r = true
  | _ => False
  end.
Proof.
  destruct (snd (standalone Demo.no_ignore_file (Demo.opts FilesUndefined (JStr "a {")) []))
    as [e|e|r|] eqn:H; try (vm_compute in H; discriminate).
  exact (proj1 (failed_attempt_flags_report Demo.no_ignore_file _ [] r H)
           eq_refl (Demo.syntaxError None) eq_refl).
Defined.

Lemma effects_do_not_depend_on_completion_witness :
  started (fst (standalone Demo.ignore_b
                  (Demo.opts (FilesArray ["a.css"; "b.css"]) JUndefined) []))
  = [InFile "/proj/a.css"].
Proof.
  refine (proj2 (effects_do_not_depend_on_completion Demo.ignore_b
                   (Demo.opts (FilesArray ["a.css"; "b.css"]) JUndefined) [] [0])
            ("b.css" +:+ String LF "") ["/proj/a.css"; "/proj/b.css"]
            eq_refl eq_refl _ eq_refl eq_refl).
  discriminate.
Defined.

Lemma mode_selection_witness :
  Globby ["a.css"; "!**/node_modules/**"; "!**/bower_components/**"]
  ∈ fst (standalone Demo.no_ignore_file (Demo.opts (FilesString "a.css") JNull) []).
Proof.
  refine (proj2 (proj2 (mode_selection Demo.no_ignore_file
                          (Demo.opts (FilesString "a.css") JNull) [] "" (fun _ => "json")
                          eq_refl eq_refl)) _).
  repeat split.
Defined.

Lemma inline_report_has_one_result_witness :
  match snd (standalone Demo.no_ignore_file Demo.with_needless []) with
  | Resolved r => exists stylelintResult, Report.results r = [stylelintResult]
  | _ => False
  end.
Proof.
  destruct (snd (standalone Demo.no_ignore_file Demo.with_needless []))
    as [e|e|r|] eqn:H; try (vm_compute in H; discriminate).
  destruct (inline_report_has_one_result Demo.no_ignore_file Demo.with_needless [] r
              eq_refl H) as (res & _ & Hres & _).
  exists res. exact Hres.
Defined.

Lemma output_is_formatted_results_witness :
  match snd (standalone Demo.no_ignore_file Inputs.custom_formatter []) with
  | Resolved r => Report.output r = "custom"
  | _ => False
  end.
Proof.
  destruct (snd (standalone Demo.no_ignore_file Inputs.custom_formatter []))
    as [e|e|r|] eqn:H; try (vm_compute in H; discriminate).
  destruct (output_is_formatted_results Demo.no_ignore_file Inputs.custom_formatter [] r H)
    as (value & _ & _ & Hout & _).
  rewrite (Hout (fun _ => "custom") eq_refl). reflexivity.
Defined.

Lemma formatter_only_renders_witness :
  standalone Demo.no_ignore_file
    (with_formatter (FormatterString "verbose") Demo.with_needless) []
  = (fst (standalone Demo.no_ignore_file Demo.with_needless []),
     rendered_by (fun _ => "verbose")
       (snd (standalone Demo.no_ignore_file Demo.with_needless []))).
Proof.
  exact (formatter_only_renders Demo.no_ignore_file Demo.with_needless []
           (FormatterString "verbose") (fun _ => "json") (fun _ => "verbose")
           eq_refl eq_refl).
Defined.

(** One pattern and no [code]: file mode is entered and the file is linted,
    with the string as with the array. *)
Lemma files_as_string_witness :
  standalone Demo.ignore_b
    (with_files (FilesString "a.css") (Demo.opts FilesUndefined JUndefined)) [0]
  = standalone Demo.ignore_b
      (with_files (FilesArray ["a.css"]) (Demo.opts FilesUndefined JUndefined)) [0]
  /\ standalone Demo.ignore_b
       (with_files (FilesString "a.css") (Demo.opts FilesUndefined JUndefined)) [0]
     = ([ReadFile "/proj/.stylelintignore"; CreateStylelint;
         Globby ["a.css"; "!**/node_modules/**"; "!**/bower_components/**"];
         LintSource (InFile "/proj/a.css")],
        Resolved
          {| Report.errored := false; Report.output := "json";
             Report.results := [Inputs.clean "/proj/a.css"];
             Report.needlessDisables := None |}).
Proof.
  split; [|reflexivity].
  refine (proj1 (files_as_string Demo.ignore_b (Demo.opts FilesUndefined JUndefined) [0])
            "a.css" _).
  discriminate.
Defined.

Lemma inline_ignores_the_ignore_text_witness :
  standalone (with_readFileSync (fun _ => resolve Inputs.two_lines) Demo.no_ignore_file)
    Demo.with_needless []
  = standalone Demo.no_ignore_file Demo.with_needless [].
Proof.
  exact (inline_ignores_the_ignore_text Demo.no_ignore_file Demo.with_needless []
           (fun _ => resolve Inputs.two_lines) "" Inputs.two_lines
           eq_refl eq_refl eq_refl).
Defined.

Lemma handlers_agree_witness :
  convertCssSyntaxErrorToResult Demo.typeError = reject Demo.typeError.
Proof.
  refine (proj1 (proj2 (handlers_agree Demo.typeError)) _).
  vm_compute. discriminate.
Defined.

Lemma ignored_files_are_not_linted_witness :
  exists filePaths,
    started (fst (standalone Demo.ignore_b
                    (Demo.opts (FilesArray ["a.css"; "b.css"]) JUndefined) []))
    = map (fileInput Demo.ignore_b) filePaths
    /\ ~ "b.css" ∈ filePaths.
Proof.
  destruct (ignored_files_are_not_linted Demo.ignore_b
              (Demo.opts (FilesArray ["a.css"; "b.css"]) JUndefined) []
              ("b.css" +:+ String LF "") ["/proj/a.css"; "/proj/b.css"]
              eq_refl eq_refl) as (filePaths & Hstarted & _ & Hrules);
    [discriminate | reflexivity | reflexivity |].
  exists filePaths. split; [exact Hstarted |].
  intros Hin.
  destruct (proj2 (Hrules "b.css" Hin) "b.css") as (negated & Hn & Hneg & _);
    [left | reflexivity | reflexivity | reflexivity | reflexivity |].
  apply elem_of_cons in Hn as [->|Hn]; [discriminate |].
  apply list_elem_of_singleton in Hn. subst negated. discriminate.
Defined.

Lemma empty_files_array_witness :
  started (fst (standalone Demo.no_ignore_file (Demo.opts (FilesArray []) JUndefined) [])) = [].
Proof.
  exact (proj1 (empty_files_array Demo.no_ignore_file
                  (Demo.opts (FilesArray []) JUndefined) [] "" (fun _ => "json")
                  eq_refl eq_refl eq_refl eq_refl)).
Defined.

(** ** More runs of the small project *)

(** The ignore file ignores the style sheets and takes [a.css] back: [a.css]
    is linted, [b.css] is not. *)
Example run_negated_rule :
  started (fst (standalone Inputs.negating
                  (Demo.opts (FilesArray ["a.css"; "b.css"]) JUndefined) [0]))
  = [InFile "/proj/a.css"].
Proof. reflexivity. Qed.

(** A comment line and a blank line are no rules. *)
Example run_comment_line :
  ignorer ("# style sheets" +:+ String LF (String LF ("b.css" +:+ String LF "")))
  = ["b.css"].
Proof. reflexivity. Qed.

(** A name that the registry object inherits is not refused: the source is
    linted, and the report is rendered by the call of the inherited value
    when that call returns. *)
Example run_inherited_formatter :
  standalone Demo.no_ignore_file Inputs.toString_formatter []
  = ([ReadFile "/proj/.stylelintignore"; CreateStylelint;
      LintSource (InCode (JStr "a {}") None)],
     Resolved
       {| Report.errored := false; Report.output := "[object Undefined]";
          Report.results := [Inputs.clean "<input css 1>"];
          Report.needlessDisables := None |}).
Proof. reflexivity. Qed.
